(** * rapier-connector: the adapter between Phaser and Rapier

    A shallow embedding of [addRidgiBody] and of the closure returned by
    [createRapierPhysics] ([update], [addRigidBody], [debugger],
    [destroy], [createEventQueue]) of [index.ts], over an explicit store
    for the objects the two libraries own:

    - JavaScript numbers are IEEE 754 binary64 values: [float]; the
      engine keeps what it is handed in single precision, and a display
      object keeps its rotation wrapped into [-pi, pi);
    - display objects are shared mutable references: a store indexed by
      reference ([ObjRef]);
    - rigid bodies, colliders and event queues live on the engine's side
      and are reached through handles;
    - a thrown JavaScript exception is an [Outcome] of its own, carrying
      the state the mutations made before the throw have left.

    The closure's [free], which releases the world and unsubscribes
    [update], is left out. *)

From Stdlib Require Import PrimFloat FloatOps.
From stdpp Require Import gmap strings list functions.


(** ** The engine's object model (RAPIER, 2D)

    The part of the engine the adapter touches: descriptors, the bodies
    and colliders of a world under their handles, and the methods called
    on them. A body or collider holds the numbers its getters return:
    what it was handed, as the engine stores it. *)

Module RAPIER.

Inductive RigidBodyType :=
| Dynamic
| Fixed
| KinematicPositionBased
| KinematicVelocityBased.

Inductive ShapeType :=
| Ball
| Cuboid
| Capsule
| Segment
| Polyline
| Triangle
| TriMesh
| HeightField
| ConvexPolygon
| RoundCuboid
| RoundTriangle
| RoundConvexPolygon
| HalfSpace.

#[global] Instance RigidBodyType_eq_dec : EqDecision RigidBodyType.
Proof. solve_decision. Defined.

#[global] Instance ShapeType_eq_dec : EqDecision ShapeType.
Proof. solve_decision. Defined.

Record Vector2 := { x : float; y : float }.

(** The static factories of [ColliderDesc] the adapter calls; a caller
    who passes a descriptor of their own builds it with the same ones. *)
Inductive ColliderDesc :=
| cuboid (hx hy : float)
| ball (radius : float)
| capsule (halfHeight radius : float)
| triangle (a b c : Vector2)
| roundCuboid (hx hy borderRadius : float)
| roundTriangle (a b c : Vector2) (borderRadius : float).

(** [RigidBodyDesc]: built by [RigidBodyDesc.dynamic()] and its siblings,
    then filled in by the setters. [userData] is the display object. *)
Record RigidBodyDesc := {
  status : RigidBodyType;
  desc_translation : Vector2;
  desc_rotation : float;
  desc_userData : option nat
}.

Definition newDesc (t : RigidBodyType) : RigidBodyDesc :=
  {| status := t;
     desc_translation := {| x := 0; y := 0 |};
     desc_rotation := 0;
     desc_userData := None |}.

Definition dynamic := newDesc Dynamic.
Definition fixed := newDesc Fixed.
Definition kinematicPositionBased := newDesc KinematicPositionBased.
Definition kinematicVelocityBased := newDesc KinematicVelocityBased.

Definition setTranslation (px py : float) (d : RigidBodyDesc) : RigidBodyDesc :=
  {| status := status d;
     desc_translation := {| x := px; y := py |};
     desc_rotation := desc_rotation d;
     desc_userData := desc_userData d |}.

Definition setRotation (angle : float) (d : RigidBodyDesc) : RigidBodyDesc :=
  {| status := status d;
     desc_translation := desc_translation d;
     desc_rotation := angle;
     desc_userData := desc_userData d |}.

Definition setUserData (data : nat) (d : RigidBodyDesc) : RigidBodyDesc :=
  {| status := status d;
     desc_translation := desc_translation d;
     desc_rotation := desc_rotation d;
     desc_userData := Some data |}.

(** *** Numbers on the engine's side

    The engine computes in single precision. A coordinate handed to it is
    kept as the nearest binary32 value, ties to even, and comes back as
    that value: [fround] is JavaScript's [Math.fround]. *)

(** The integer nearest to [v], ties to even, for [0 <= v < 2^51]. *)
Definition nearest (v : float) : float := ((v + 0x1p52) - 0x1p52)%float.

(** [abs v] is [m * 2^e] with [1/2 <= m < 1]. Binary32 keeps 24 bits of
    [m], fewer when [abs v] is below [2^-126], none of a value below
    [2^-150], and has no finite value from [2^128] on. *)
Definition fround (v : float) : float :=
  if is_nan v || is_infinity v || is_zero v then v
  else
    let '(m, e) := Z.frexp (abs v) in
    let bits := (24 `min` (e + 149))%Z in
    let kept :=
      if (bits <? 0)%Z then 0%float
      else
        let r := Z.ldexp (nearest (Z.ldexp m bits)) (e - bits) in
        if (0x1p128 <=? r)%float then infinity else r in
    if get_sign v then (- kept)%float else kept.

Arguments fround : simpl never.

Definition stored (v : Vector2) : Vector2 :=
  {| x := fround (x v); y := fround (y v) |}.

(** An angle is kept as a unit complex number in single precision, made
    with the engine's own sine and cosine, and read back as the argument
    of that number. What comes back for an angle is the engine's business:
    [angle a] is what [rotation()] returns for a body or a collider whose
    rotation was set to [a]. *)
Class Angles := { angle : float → float }.

(** What the engine keeps for a rigid body. *)
Record RigidBody := {
  bodyType : RigidBodyType;
  translation : Vector2;
  rotation : float;
  nextKinematicTranslation : Vector2;
  nextKinematicRotation : float;
  userData : option nat
}.

(** What it keeps for a collider: the descriptor of its shape, the body
    it is attached to and its rotation. *)
Record Collider := {
  shape : ColliderDesc;
  parent : nat;
  collider_rotation : float
}.

Record World := {
  rigidBodies : gmap nat RigidBody;
  colliders : gmap nat Collider;
  nextBody : nat;
  nextCollider : nat
}.

Definition newWorld : World :=
  {| rigidBodies := ∅; colliders := ∅; nextBody := 0; nextCollider := 0 |}.

Definition setBodies (f : gmap nat RigidBody → gmap nat RigidBody) (w : World) : World :=
  {| rigidBodies := f (rigidBodies w);
     colliders := colliders w;
     nextBody := nextBody w;
     nextCollider := nextCollider w |}.

Definition setColliders (f : gmap nat Collider → gmap nat Collider) (w : World) : World :=
  {| rigidBodies := rigidBodies w;
     colliders := f (colliders w);
     nextBody := nextBody w;
     nextCollider := nextCollider w |}.

(** [world.createRigidBody(desc)]: a new body that starts where the
    descriptor says, as the engine stores it, under a handle never used
    before. *)
Definition createRigidBody `{!Angles} (d : RigidBodyDesc) (w : World) : World * nat :=
  let h := nextBody w in
  ({| rigidBodies :=
        <[h := {| bodyType := status d;
                  translation := stored (desc_translation d);
                  rotation := angle (desc_rotation d);
                  nextKinematicTranslation := stored (desc_translation d);
                  nextKinematicRotation := angle (desc_rotation d);
                  userData := desc_userData d |}]> (rigidBodies w);
      colliders := colliders w;
      nextBody := S h;
      nextCollider := nextCollider w |}, h).

(** The value handed to [world.createCollider]. Its declared type is
    [ColliderDesc]; the adapter's cast [colliderDesc as ColliderDesc]
    lets a [ShapeType] number through as well. *)
Inductive JsColliderDesc :=
| JsDesc (d : ColliderDesc)
| JsNumber (k : ShapeType).

(** [world.createCollider(desc, parent)] begins by reading [desc.shape]
    and calling a method on it. A number has no [shape] property, so for
    a number the call raises a TypeError ([None]) before anything is
    allocated. A collider made from one of the factories above has no
    rotation of its own: attached to a body, it is turned as the body
    is. *)
Definition createCollider (d : JsColliderDesc) (body : nat) (w : World)
  : option (World * nat) :=
  match d with
  | JsNumber _ => None
  | JsDesc s =>
      let c := nextCollider w in
      Some ({| rigidBodies := rigidBodies w;
               colliders := <[c := {| shape := s; parent := body;
                                      collider_rotation :=
                                        default 0%float
                                          (rotation <$> rigidBodies w !! body) |}]>
                              (colliders w);
               nextBody := nextBody w;
               nextCollider := S c |}, c)
  end.

(** [world.removeRigidBody(body)]: the body goes, and with it every
    collider attached to it. *)
Definition removeRigidBody (h : nat) (w : World) : World :=
  {| rigidBodies := delete h (rigidBodies w);
     colliders := filter (λ kc, parent kc.2 ≠ h) (colliders w);
     nextBody := nextBody w;
     nextCollider := nextCollider w |}.

Definition isFixed (b : RigidBody) : bool :=
  match bodyType b with
  | Fixed => true
  | _ => false
  end.

Definition isKinematic (b : RigidBody) : bool :=
  match bodyType b with
  | KinematicPositionBased | KinematicVelocityBased => true
  | _ => false
  end.

Definition setNextKinematicTranslation (t : Vector2) (b : RigidBody) : RigidBody :=
  {| bodyType := bodyType b;
     translation := translation b;
     rotation := rotation b;
     nextKinematicTranslation := stored t;
     nextKinematicRotation := nextKinematicRotation b;
     userData := userData b |}.

Definition setNextKinematicRotation `{!Angles} (a : float) (b : RigidBody) : RigidBody :=
  {| bodyType := bodyType b;
     translation := translation b;
     rotation := rotation b;
     nextKinematicTranslation := nextKinematicTranslation b;
     nextKinematicRotation := angle a;
     userData := userData b |}.

Definition setColliderRotation `{!Angles} (a : float) (c : Collider) : Collider :=
  {| shape := shape c; parent := parent c; collider_rotation := angle a |}.

(** [world.debugRender()]: two flat [Float32Array]s. *)
Record DebugRenderBuffers := {
  vertices : list float;
  colors : list float
}.

(** A collision event as [drainCollisionEvents] hands it to its
    callback: two collider handles and whether the contact started. *)
Record CollisionEvent := {
  handle1 : nat;
  handle2 : nat;
  started : bool
}.

(** The simulation proper is the engine's business: one tick of it, the
    collision events a tick reports and the debug geometry of a world
    are taken as given. *)
Record Simulation := {
  step : World → World;
  collisions : World → list CollisionEvent;
  debugRender : World → DebugRenderBuffers
}.

(** Event queues are engine-side objects too: [new EventQueue(true)]
    allocates one, [free()] releases it. *)
Record EventQueues := {
  live : gset nat;
  nextQueue : nat
}.

Definition noQueues : EventQueues := {| live := ∅; nextQueue := 0 |}.

Definition newEventQueue (qs : EventQueues) : EventQueues * nat :=
  let q := nextQueue qs in
  ({| live := {[q]} ∪ live qs; nextQueue := S q |}, q).

Definition freeEventQueue (q : nat) (qs : EventQueues) : EventQueues :=
  {| live := live qs ∖ {[q]}; nextQueue := nextQueue qs |}.

End RAPIER.

(** ** The display objects (Phaser) *)

Module Phaser.

(** The fields of a [GameObjects.Image] the adapter reads or writes.
    [active] is what [destroy()] clears. *)
Record GameObject := {
  x : float;
  y : float;
  rotation : float;
  displayWidth : float;
  displayHeight : float;
  originX : float;
  active : bool
}.

Definition set_x (v : float) (g : GameObject) : GameObject :=
  {| x := v; y := y g; rotation := rotation g;
     displayWidth := displayWidth g;
     displayHeight := displayHeight g;
     originX := originX g;
     active := active g |}.

Definition set_y (v : float) (g : GameObject) : GameObject :=
  {| x := x g; y := v; rotation := rotation g;
     displayWidth := displayWidth g;
     displayHeight := displayHeight g;
     originX := originX g;
     active := active g |}.

(** JavaScript's [%] on numbers: the remainder of the division truncated
    towards zero, computed without rounding, with the sign of the
    dividend. [fmod_loop] takes from [r] the largest [m * 2^k] below it
    until [r < m]; every difference is exact, and each round at least
    halves [r]. *)
Fixpoint fmod_loop (fuel : nat) (r m : float) : float :=
  match fuel with
  | O => r
  | S fuel' =>
      if (r <? m)%float then r
      else
        let k := ((Z.frexp r).2 - (Z.frexp m).2)%Z in
        let t := Z.ldexp m k in
        let t := if (t <=? r)%float then t else Z.ldexp m (k - 1) in
        fmod_loop fuel' (r - t)%float m
  end.

Definition fmod (a b : float) : float :=
  if is_nan a || is_nan b || is_infinity a || is_zero b then nan
  else if is_infinity b then a
  else
    let r := fmod_loop 2200 (abs a) (abs b) in
    if get_sign a then (- r)%float else r.

Arguments fmod : simpl never.

(** [Math.PI]. *)
Definition PI : float := 0x1.921fb54442d18p+1.

(** [Phaser.Math.Wrap] and [Phaser.Math.Angle.Wrap]. *)
Definition Wrap (value min max : float) : float :=
  let range := (max - min)%float in
  (min + fmod (fmod (value - min) range + range) range)%float.

Definition WrapAngle (angle : float) : float := Wrap angle (- PI)%float PI.

Arguments WrapAngle : simpl never.

(** [gameObject.rotation = v]: the setter keeps the angle wrapped. [x]
    and [y] are plain properties. *)
Definition set_rotation (v : float) (g : GameObject) : GameObject :=
  {| x := x g; y := y g; rotation := WrapAngle v;
     displayWidth := displayWidth g;
     displayHeight := displayHeight g;
     originX := originX g;
     active := active g |}.

Definition destroy (g : GameObject) : GameObject :=
  {| x := x g; y := y g; rotation := rotation g;
     displayWidth := displayWidth g;
     displayHeight := displayHeight g;
     originX := originX g;
     active := false |}.

(** [Phaser.Display.Color.GetColor(red, green, blue)], kept symbolic. *)
Record Color := GetColor { red : float; green : float; blue : float }.

(** The calls made on the debug [Graphics] object since its last
    [clear()]. An array read past the end yields [undefined]: [None]. *)
Inductive DrawCall :=
| lineStyle (lineWidth : float) (color : Color) (alpha : option float)
| lineBetween (x1 y1 x2 y2 : option float).

End Phaser.

(** ** The adapter's state *)

(** A display object is held by reference: [===] on two of them compares
    references. *)
Definition ObjRef := nat.

(** The options record of [addRigidBody]; every field is optional. A
    [collider] is a descriptor or a [ShapeType] number. *)
Module TRapierOptions.

Inductive Collider :=
| ofDesc (d : RAPIER.ColliderDesc)
| ofShapeType (k : RAPIER.ShapeType).

Record t := {
  rigidBodyType : option RAPIER.RigidBodyType;
  collider : option Collider;
  phaserTransformations : option bool
}.

End TRapierOptions.

(** An entry of the [bodies] array. [self] is the identity of the record
    itself, which is what [bodies.indexOf] compares; the other fields are
    those of the source. *)
Module TRidgiBodyObject.

Record t := {
  self : nat;
  rigidBody : nat;
  collider : nat;
  gameObject : ObjRef;
  phaserTransformations : bool
}.

End TRidgiBodyObject.

Module TPhysicsObject.

Record t := {
  rigidBody : nat;
  collider : nat;
  gameObject : ObjRef
}.

End TPhysicsObject.

(** What the adapter does to the console, the engine, the scene and its
    own array, in the order it does it. *)
Inductive Effect :=
| console_error (msg : string)
| console_log (event : nat)
| world_removeRigidBody (h : nat)
| gameObject_destroy (o : ObjRef)
| bodies_splice (index : nat).

Inductive Error :=
| TypeError
| RuntimeError.

(** The variables [createRapierPhysics] closes over ([world], [bodies],
    [debugEnabled], [eventQueue], [debugGraphics]) together with the
    stores they point into. *)
Record State := {
  scene : ObjRef → Phaser.GameObject;
  world : RAPIER.World;
  queues : RAPIER.EventQueues;
  bodies : list TRidgiBodyObject.t;
  debugEnabled : bool;
  eventQueue : option nat;
  debugGraphics : list Phaser.DrawCall;
  trace : list Effect;
  nextRecord : nat
}.

Definition set_scene (f : (ObjRef → Phaser.GameObject) → ObjRef → Phaser.GameObject)
    (st : State) : State :=
  {| scene := f (scene st); world := world st; queues := queues st;
     bodies := bodies st; debugEnabled := debugEnabled st;
     eventQueue := eventQueue st; debugGraphics := debugGraphics st;
     trace := trace st; nextRecord := nextRecord st |}.

Definition set_world (f : RAPIER.World → RAPIER.World) (st : State) : State :=
  {| scene := scene st; world := f (world st); queues := queues st;
     bodies := bodies st; debugEnabled := debugEnabled st;
     eventQueue := eventQueue st; debugGraphics := debugGraphics st;
     trace := trace st; nextRecord := nextRecord st |}.

Definition set_queues (f : RAPIER.EventQueues → RAPIER.EventQueues) (st : State) : State :=
  {| scene := scene st; world := world st; queues := f (queues st);
     bodies := bodies st; debugEnabled := debugEnabled st;
     eventQueue := eventQueue st; debugGraphics := debugGraphics st;
     trace := trace st; nextRecord := nextRecord st |}.

Definition set_bodies (f : list TRidgiBodyObject.t → list TRidgiBodyObject.t)
    (st : State) : State :=
  {| scene := scene st; world := world st; queues := queues st;
     bodies := f (bodies st); debugEnabled := debugEnabled st;
     eventQueue := eventQueue st; debugGraphics := debugGraphics st;
     trace := trace st; nextRecord := nextRecord st |}.

Definition set_debugEnabled (b : bool) (st : State) : State :=
  {| scene := scene st; world := world st; queues := queues st;
     bodies := bodies st; debugEnabled := b;
     eventQueue := eventQueue st; debugGraphics := debugGraphics st;
     trace := trace st; nextRecord := nextRecord st |}.

Definition set_eventQueue (q : option nat) (st : State) : State :=
  {| scene := scene st; world := world st; queues := queues st;
     bodies := bodies st; debugEnabled := debugEnabled st;
     eventQueue := q; debugGraphics := debugGraphics st;
     trace := trace st; nextRecord := nextRecord st |}.

Definition set_debugGraphics (f : list Phaser.DrawCall → list Phaser.DrawCall)
    (st : State) : State :=
  {| scene := scene st; world := world st; queues := queues st;
     bodies := bodies st; debugEnabled := debugEnabled st;
     eventQueue := eventQueue st; debugGraphics := f (debugGraphics st);
     trace := trace st; nextRecord := nextRecord st |}.

Definition set_trace (f : list Effect → list Effect) (st : State) : State :=
  {| scene := scene st; world := world st; queues := queues st;
     bodies := bodies st; debugEnabled := debugEnabled st;
     eventQueue := eventQueue st; debugGraphics := debugGraphics st;
     trace := f (trace st); nextRecord := nextRecord st |}.

Definition set_nextRecord (n : nat) (st : State) : State :=
  {| scene := scene st; world := world st; queues := queues st;
     bodies := bodies st; debugEnabled := debugEnabled st;
     eventQueue := eventQueue st; debugGraphics := debugGraphics st;
     trace := trace st; nextRecord := n |}.

(** ** Computations that may throw *)

Inductive Outcome (A : Type) :=
| Returned (a : A) (st : State)
| Thrown (e : Error) (st : State).

Arguments Returned {A} a st.
Arguments Thrown {A} e st.

Definition Js (A : Type) : Type := State → Outcome A.

#[global] Instance Js_ret : MRet Js := λ A a st, Returned a st.

#[global] Instance Js_bind : MBind Js := λ A B f m st,
  match m st with
  | Returned a st' => f a st'
  | Thrown e st' => Thrown e st'
  end.

Definition modify (f : State → State) : Js unit := λ st, Returned tt (f st).

Definition emit (e : Effect) : Js unit := modify (set_trace (λ t, t ++ [e])).

(** The state a call leaves behind, whether it returned or threw. *)
Definition final {A} (o : Outcome A) : State :=
  match o with
  | Returned _ st => st
  | Thrown _ st => st
  end.

Definition readObject (o : ObjRef) : Js Phaser.GameObject :=
  λ st, Returned (scene st o) st.

Definition writeObject (o : ObjRef) (f : Phaser.GameObject → Phaser.GameObject) : Js unit :=
  modify (set_scene (λ s, <[o := f (s o)]> s)).

(** A method called on a body or collider the world no longer holds
    fails inside the engine. *)
Definition readBody (h : nat) : Js RAPIER.RigidBody := λ st,
  match RAPIER.rigidBodies (world st) !! h with
  | Some b => Returned b st
  | None => Thrown RuntimeError st
  end.

Definition writeBody (h : nat) (f : RAPIER.RigidBody → RAPIER.RigidBody) : Js unit := λ st,
  match RAPIER.rigidBodies (world st) !! h with
  | Some b => Returned tt (set_world (RAPIER.setBodies (<[h := f b]>)) st)
  | None => Thrown RuntimeError st
  end.

Definition writeCollider (c : nat) (f : RAPIER.Collider → RAPIER.Collider) : Js unit := λ st,
  match RAPIER.colliders (world st) !! c with
  | Some col => Returned tt (set_world (RAPIER.setColliders (<[c := f col]>)) st)
  | None => Thrown RuntimeError st
  end.

Fixpoint forEach {A} (f : A → Js unit) (l : list A) : Js unit :=
  match l with
  | [] => mret tt
  | a :: l' => f a ;; forEach f l'
  end.

(** ** [addRidgiBody] *)

Import RAPIER (ShapeType(..), RigidBodyType(..)).

(** The shape-kind numbers [addRidgiBody] reports as not implemented. *)
Definition unimplemented (k : ShapeType) : bool :=
  match k with
  | TriMesh | HalfSpace | Segment | ConvexPolygon | RoundConvexPolygon => true
  | _ => false
  end.

(** The first half of [addRidgiBody]: the value of [_colliderDesc] once
    the [typeof colliderDesc === 'number'] chain is through, and what the
    chain has written to the console on the way. *)
Definition selectColliderDesc (_body : Phaser.GameObject)
    (colliderDesc : option TRapierOptions.Collider)
  : RAPIER.JsColliderDesc * list Effect :=
  let displayWidth := Phaser.displayWidth _body in
  let displayHeight := Phaser.displayHeight _body in
  let _colliderDesc :=
    match colliderDesc with
    | None => RAPIER.JsDesc (RAPIER.cuboid (displayWidth / 2) (displayHeight / 2))
    | Some (TRapierOptions.ofDesc d) => RAPIER.JsDesc d
    | Some (TRapierOptions.ofShapeType k) => RAPIER.JsNumber k
    end in
  match colliderDesc with
  | Some (TRapierOptions.ofShapeType k) =>
      match k with
      | Ball =>
          (RAPIER.JsDesc (RAPIER.ball (displayWidth / 2)), [])
      | Capsule =>
          (RAPIER.JsDesc (RAPIER.capsule (displayWidth / 4) (displayWidth / 2)), [])
      | Cuboid =>
          (RAPIER.JsDesc (RAPIER.cuboid (displayWidth / 2) (displayHeight / 2)), [])
      | Triangle =>
          let halfWidth := displayWidth / 2 in
          let halfHeight := displayHeight / 2 in
          let vertexA := {| RAPIER.x := 0; RAPIER.y := - halfHeight |} in
          let vertexB := {| RAPIER.x := - halfWidth; RAPIER.y := halfHeight |} in
          let vertexC := {| RAPIER.x := halfWidth; RAPIER.y := halfHeight |} in
          (RAPIER.JsDesc (RAPIER.triangle vertexA vertexB vertexC), [])
      | RoundCuboid =>
          (RAPIER.JsDesc (RAPIER.roundCuboid (displayWidth / 2) (displayHeight / 2) 5), [])
      | RoundTriangle =>
          let halfWidth := displayWidth / 2 in
          let halfHeight := displayHeight / 2 in
          let vertexA := {| RAPIER.x := 0; RAPIER.y := - halfHeight |} in
          let vertexB := {| RAPIER.x := - halfWidth; RAPIER.y := halfHeight |} in
          let vertexC := {| RAPIER.x := halfWidth; RAPIER.y := halfHeight |} in
          (RAPIER.JsDesc (RAPIER.roundTriangle vertexA vertexB vertexC 5), [])
      | TriMesh =>
          (_colliderDesc,
           [console_error "TriMesh not implemented, please use a ColliderDesc object"])
      | HalfSpace =>
          (_colliderDesc,
           [console_error "HeightSpace not implemented, please use a ColliderDesc object"])
      | Segment =>
          (_colliderDesc,
           [console_error "Segment not implemented, please use a ColliderDesc object"])
      | ConvexPolygon =>
          (_colliderDesc,
           [console_error "ConvexPolygon not implemented, please use a ColliderDesc object"])
      | RoundConvexPolygon =>
          (_colliderDesc,
           [console_error "RoundConvexPolygon not implemented, please use a ColliderDesc object"])
      | Polyline | HeightField =>
          (_colliderDesc, [])
      end
  | _ => (_colliderDesc, [])
  end%float.

(** The second half: the descriptor of the body. The [default] arm of the
    source's [switch] is the arm of a number outside the enum, which the
    type of [rigidBodyType] leaves out here. *)
Definition selectRigidBodyDesc (rigidBodyType : option RigidBodyType) : RAPIER.RigidBodyDesc :=
  match rigidBodyType with
  | Some Dynamic => RAPIER.dynamic
  | Some Fixed => RAPIER.fixed
  | Some KinematicPositionBased => RAPIER.kinematicPositionBased
  | Some KinematicVelocityBased => RAPIER.kinematicVelocityBased
  | None => RAPIER.dynamic
  end.

Definition world_createRigidBody `{!RAPIER.Angles} (d : RAPIER.RigidBodyDesc) : Js nat := λ st,
  let '(w, h) := RAPIER.createRigidBody d (world st) in
  Returned h (set_world (λ _, w) st).

Definition world_createCollider (d : RAPIER.JsColliderDesc) (body : nat) : Js nat := λ st,
  match RAPIER.createCollider d body (world st) with
  | Some (w, c) => Returned c (set_world (λ _, w) st)
  | None => Thrown TypeError st
  end.

(** The object literal a function returns is a new object. *)
Definition newRecord : Js nat := λ st,
  Returned (nextRecord st) (set_nextRecord (S (nextRecord st)) st).

Definition addRidgiBody `{!RAPIER.Angles} (body : ObjRef)
    (rigidBodyType : option RigidBodyType)
    (colliderDesc : option TRapierOptions.Collider)
    (phaserTransformations : option bool) : Js TRidgiBodyObject.t :=
  _body ← readObject body;
  let '(_colliderDesc, diagnostics) := selectColliderDesc _body colliderDesc in
  forEach emit diagnostics;;
  let rigidBodyDesc := selectRigidBodyDesc rigidBodyType in
  let rigidBodyDesc := RAPIER.setTranslation (Phaser.x _body) (Phaser.y _body) rigidBodyDesc in
  let rigidBodyDesc := RAPIER.setRotation (Phaser.rotation _body) rigidBodyDesc in
  let rigidBodyDesc := RAPIER.setUserData body rigidBodyDesc in
  rigidBody ← world_createRigidBody rigidBodyDesc;
  collider ← world_createCollider _colliderDesc rigidBody;
  self ← newRecord;
  mret {| TRidgiBodyObject.self := self;
          TRidgiBodyObject.rigidBody := rigidBody;
          TRidgiBodyObject.collider := collider;
          TRidgiBodyObject.gameObject := body;
          TRidgiBodyObject.phaserTransformations := default false phaserTransformations |}.

(** ** The closure of [createRapierPhysics] *)

(** [addRigidBody]: [rapierOptions?.field] is [undefined] when the record
    is. *)
Definition addRigidBody `{!RAPIER.Angles} (body : ObjRef) (rapierOptions : option TRapierOptions.t)
  : Js TPhysicsObject.t :=
  _body ← addRidgiBody body
            (rapierOptions ≫= TRapierOptions.rigidBodyType)
            (rapierOptions ≫= TRapierOptions.collider)
            (rapierOptions ≫= TRapierOptions.phaserTransformations);
  modify (set_bodies (cons _body));;
  mret {| TPhysicsObject.collider := TRidgiBodyObject.collider _body;
          TPhysicsObject.rigidBody := TRidgiBodyObject.rigidBody _body;
          TPhysicsObject.gameObject := TRidgiBodyObject.gameObject _body |}.

(** A branch that does nothing. *)
Definition skip : Js unit := mret tt.

Definition get {A} (field : State → A) : Js A := λ st, Returned (field st) st.

(** The callback of [bodies.forEach] in [update]. Each engine getter is
    a call of its own on the body. The setters of the engine and of the
    display object keep what they are handed in their own way:
    [RAPIER.setNextKinematicTranslation] and its siblings in single
    precision, [Phaser.set_rotation] wrapped. *)
Definition syncBody `{!RAPIER.Angles} (body : TRidgiBodyObject.t) : Js unit :=
  let rigidBody := TRidgiBodyObject.rigidBody body in
  let collider := TRidgiBodyObject.collider body in
  let phaserTransformations := TRidgiBodyObject.phaserTransformations body in
  let gameObject := TRidgiBodyObject.gameObject body in
  rb ← readBody rigidBody;
  if RAPIER.isFixed rb then skip
  else if phaserTransformations then
    rb ← readBody rigidBody;
    if RAPIER.isKinematic rb
       && bool_decide (RAPIER.bodyType rb = KinematicPositionBased)
    then
      g ← readObject gameObject;
      let translation :=
        {| RAPIER.x := (Phaser.x g - Phaser.displayWidth g * (Phaser.originX g - 0.5))%float;
           RAPIER.y := Phaser.y g |} in
      writeBody rigidBody (RAPIER.setNextKinematicTranslation translation);;
      g ← readObject gameObject;
      let rotation := Phaser.rotation g in
      writeBody rigidBody (RAPIER.setNextKinematicRotation rotation);;
      g ← readObject gameObject;
      let colliderRotation := Phaser.rotation g in
      writeCollider collider (RAPIER.setColliderRotation colliderRotation)
    else
      emit (console_error
        "Phaser transformations are only available for KinematicPositionBased rigid bodies")
  else
    rb ← readBody rigidBody;
    writeObject gameObject (Phaser.set_x (RAPIER.x (RAPIER.translation rb)));;
    rb ← readBody rigidBody;
    writeObject gameObject (Phaser.set_y (RAPIER.y (RAPIER.translation rb)));;
    rb ← readBody rigidBody;
    writeObject gameObject (Phaser.set_rotation (RAPIER.rotation rb)).

(** [undefined * 255] is [NaN]. *)
Definition times255 (c : option float) : float :=
  match c with
  | Some v => (v * 255)%float
  | None => nan
  end.

(** The [for (let i = 0; i < vertices.length; i += 4)] loop of the debug
    renderer, from index [i] on; [fuel] bounds the number of rounds. *)
Fixpoint drawLines (fuel i : nat) (vertices colors : list float) : list Phaser.DrawCall :=
  match fuel with
  | O => []
  | S fuel' =>
      if bool_decide (i < length vertices) then
        let x1 := vertices !! i in
        let y1 := vertices !! (i + 1) in
        let x2 := vertices !! (i + 2) in
        let y2 := vertices !! (i + 3) in
        let colorIndex := i * 2 in
        let r := colors !! colorIndex in
        let g := colors !! (colorIndex + 1) in
        let b := colors !! (colorIndex + 2) in
        let a := colors !! (colorIndex + 3) in
        Phaser.lineStyle 2 (Phaser.GetColor (times255 r) (times255 g) (times255 b)) a
        :: Phaser.lineBetween x1 y1 x2 y2
        :: drawLines fuel' (i + 4) vertices colors
      else []
  end.

(** The whole loop: [vertices.length] rounds are more than it takes. *)
Definition debugLines (buffers : RAPIER.DebugRenderBuffers) : list Phaser.DrawCall :=
  drawLines (length (RAPIER.vertices buffers)) 0
            (RAPIER.vertices buffers) (RAPIER.colors buffers).

Module TEventQueue.

Record t := {
  eventQueue : nat;
  free : Js unit
}.

End TEventQueue.

Definition find (gameObject : ObjRef) (l : list TRidgiBodyObject.t)
  : option TRidgiBodyObject.t :=
  snd <$> list_find (λ b, TRidgiBodyObject.gameObject b = gameObject) l.

(** [indexOf] compares the records themselves. *)
Definition indexOf (body : TRidgiBodyObject.t) (l : list TRidgiBodyObject.t) : option nat :=
  fst <$> list_find (λ b, TRidgiBodyObject.self b = TRidgiBodyObject.self body) l.

Section createRapierPhysics.

Context `{!RAPIER.Angles}.
Variable sim : RAPIER.Simulation.

(** The three parts of [update], in the order it runs them. *)
Definition stepWorld : Js unit :=
  queue ← get eventQueue;
  match queue with
  | Some _ =>
      events ← get (λ st, RAPIER.collisions sim (world st));
      modify (set_world (RAPIER.step sim));;
      forEach (λ event, emit (console_log (RAPIER.handle1 event))) events
  | None =>
      modify (set_world (RAPIER.step sim))
  end.

Definition syncBodies : Js unit :=
  l ← get bodies;
  forEach syncBody l.

Definition renderDebug : Js unit :=
  enabled ← get debugEnabled;
  if (enabled : bool) then
    modify (set_debugGraphics (λ _, []));;
    debugRender ← get (λ st, RAPIER.debugRender sim (world st));
    modify (set_debugGraphics (λ calls, calls ++ debugLines debugRender))
  else skip.

Definition update : Js unit :=
  stepWorld;;
  syncBodies;;
  renderDebug.

Definition debugger (enable : option bool) : Js unit :=
  let enable := default true enable in
  modify (set_debugEnabled enable);;
  if negb enable then modify (set_debugGraphics (λ _, [])) else skip.

Definition destroy (gameObject : ObjRef) : Js unit :=
  l ← get bodies;
  match find gameObject l with
  | Some body =>
      modify (set_world (RAPIER.removeRigidBody (TRidgiBodyObject.rigidBody body)));;
      emit (world_removeRigidBody (TRidgiBodyObject.rigidBody body));;
      writeObject (TRidgiBodyObject.gameObject body) Phaser.destroy;;
      emit (gameObject_destroy (TRidgiBodyObject.gameObject body));;
      l ← get bodies;
      match indexOf body l with
      | Some index =>
          modify (set_bodies (delete index));;
          emit (bodies_splice index)
      | None => skip
      end
  | None => skip
  end.

(** The [free] of the object [createEventQueue] returns. It reads the
    variable [eventQueue] of the enclosing closure, not a queue of its
    own. *)
Definition free_eventQueue : Js unit :=
  queue ← get eventQueue;
  match queue with
  | Some q =>
      modify (set_queues (RAPIER.freeEventQueue q));;
      modify (set_eventQueue None)
  | None => skip
  end.

Definition createEventQueue : Js TEventQueue.t := λ st,
  let '(qs, q) := RAPIER.newEventQueue (queues st) in
  Returned {| TEventQueue.eventQueue := q; TEventQueue.free := free_eventQueue |}
           (set_eventQueue (Some q) (set_queues (λ _, qs) st)).

(** The state [createRapierPhysics] starts from, given the scene's
    display objects. The gravity it is called with goes to the engine
    and is part of what a tick of the simulation does. *)
Definition createRapierPhysics (objects : ObjRef → Phaser.GameObject) : State :=
  {| scene := objects; world := RAPIER.newWorld; queues := RAPIER.noQueues;
     bodies := []; debugEnabled := false; eventQueue := None;
     debugGraphics := []; trace := []; nextRecord := 0 |}.

End createRapierPhysics.

(** * What the statements below are written with *)

(** The shape of each shape kind as the specification words it: a box
    sized to the display bounds, a ball of half the display width, a
    capsule of a quarter and a half of it, the isoceles triangle inscribed
    in the bounding box, and the rounded variants with a fixed rounding
    radius. No shape asked for is the bounding box. *)
Definition cornerRadius : float := 5.

Definition inscribedTriangle {T} (make : RAPIER.Vector2 → RAPIER.Vector2 → RAPIER.Vector2 → T)
    (displayWidth displayHeight : float) : T :=
  make {| RAPIER.x := 0; RAPIER.y := - (displayHeight / 2) |}
       {| RAPIER.x := - (displayWidth / 2); RAPIER.y := displayHeight / 2 |}
       {| RAPIER.x := displayWidth / 2; RAPIER.y := displayHeight / 2 |}%float.

Definition referenceCollider (displayWidth displayHeight : float) (kind : option ShapeType)
  : option RAPIER.ColliderDesc :=
  match kind with
  | None | Some Cuboid =>
      Some (RAPIER.cuboid (displayWidth / 2) (displayHeight / 2))
  | Some Ball =>
      Some (RAPIER.ball (displayWidth / 2))
  | Some Capsule =>
      Some (RAPIER.capsule (displayWidth / 4) (displayWidth / 2))
  | Some Triangle =>
      Some (inscribedTriangle RAPIER.triangle displayWidth displayHeight)
  | Some RoundCuboid =>
      Some (RAPIER.roundCuboid (displayWidth / 2) (displayHeight / 2) cornerRadius)
  | Some RoundTriangle =>
      Some (inscribedTriangle (λ a b c, RAPIER.roundTriangle a b c cornerRadius)
                              displayWidth displayHeight)
  | Some _ => None
  end%float.

(** The diagnostic of each shape kind reported as not implemented. *)
Definition notImplemented (k : ShapeType) : string :=
  match k with
  | TriMesh => "TriMesh not implemented, please use a ColliderDesc object"
  | HalfSpace => "HeightSpace not implemented, please use a ColliderDesc object"
  | Segment => "Segment not implemented, please use a ColliderDesc object"
  | ConvexPolygon => "ConvexPolygon not implemented, please use a ColliderDesc object"
  | RoundConvexPolygon => "RoundConvexPolygon not implemented, please use a ColliderDesc object"
  | _ => ""
  end.

(** The body [addRidgiBody] builds for a display object. *)
Definition bodyAt `{!RAPIER.Angles} (kind : RigidBodyType) (body : ObjRef) (g : Phaser.GameObject)
  : RAPIER.RigidBody :=
  let position :=
    {| RAPIER.x := RAPIER.fround (Phaser.x g); RAPIER.y := RAPIER.fround (Phaser.y g) |} in
  {| RAPIER.bodyType := kind;
     RAPIER.translation := position;
     RAPIER.rotation := RAPIER.angle (Phaser.rotation g);
     RAPIER.nextKinematicTranslation := position;
     RAPIER.nextKinematicRotation := RAPIER.angle (Phaser.rotation g);
     RAPIER.userData := Some body |}.

(** What C3 says of a call: the body it creates starts at the display
    object's own position and rotation. *)
Definition startsAtDisplayPose `{!RAPIER.Angles} (body : ObjRef)
    (rapierOptions : option TRapierOptions.t) (st : State) : Prop :=
  let g := scene st body in
  ∃ b, RAPIER.rigidBodies (world (final (addRigidBody body rapierOptions st)))
         !! RAPIER.nextBody (world st) = Some b
       ∧ RAPIER.translation b = {| RAPIER.x := Phaser.x g; RAPIER.y := Phaser.y g |}
       ∧ RAPIER.rotation b = Phaser.rotation g.

(** What C2 says of an entry in a state: the callback leaves the body
    and the collider with the very numbers of the display object. *)
Definition mirrorsExactly `{!RAPIER.Angles} (body : TRidgiBodyObject.t) (st : State) : Prop :=
  let g := scene st (TRidgiBodyObject.gameObject body) in
  ∃ st' b c,
    syncBody body st = Returned tt st'
    ∧ RAPIER.rigidBodies (world st') !! TRidgiBodyObject.rigidBody body = Some b
    ∧ RAPIER.nextKinematicTranslation b
      = {| RAPIER.x := (Phaser.x g - Phaser.displayWidth g * (Phaser.originX g - 0.5))%float;
           RAPIER.y := Phaser.y g |}
    ∧ RAPIER.nextKinematicRotation b = Phaser.rotation g
    ∧ RAPIER.colliders (world st') !! TRidgiBodyObject.collider body = Some c
    ∧ RAPIER.collider_rotation c = Phaser.rotation g.

(** The diagnostic of [update] for a mirrored body of the wrong kind. *)
Definition mirrorMisuse : string :=
  "Phaser transformations are only available for KinematicPositionBased rigid bodies".

(** The kind of the body under a handle, if the world holds one. *)
Definition kindOf (st : State) (h : nat) : option RigidBodyType :=
  RAPIER.bodyType <$> RAPIER.rigidBodies (world st) !! h.

(** A tick of the simulation does not turn a body into one of another
    kind, nor make or drop one. *)
Definition keepsKinds (sim : RAPIER.Simulation) : Prop :=
  ∀ w h, RAPIER.bodyType <$> RAPIER.rigidBodies (RAPIER.step sim w) !! h
         = RAPIER.bodyType <$> RAPIER.rigidBodies w !! h.

(** [n] frames in a row. *)
Fixpoint frames `{!RAPIER.Angles} (sim : RAPIER.Simulation) (n : nat) : Js unit :=
  match n with
  | O => skip
  | S n' => update sim;; frames sim n'
  end.

(** A run of [addRigidBody] calls, one after the other. *)
Fixpoint attachAll `{!RAPIER.Angles} (calls : list (ObjRef * option TRapierOptions.t))
  : Js (list TPhysicsObject.t) :=
  match calls with
  | [] => mret []
  | (body, rapierOptions) :: calls' =>
      r ← addRigidBody body rapierOptions;
      rs ← attachAll calls';
      mret (r :: rs)
  end.

(** The records of [bodies] are distinct objects, all made before the
    next one to come. Every state the adapter reaches is of this kind. *)
Definition wf (st : State) : Prop :=
  NoDup (TRidgiBodyObject.self <$> bodies st)
  ∧ Forall (λ a, TRidgiBodyObject.self a < nextRecord st) (bodies st).

(** How many entries of [bodies] hold a display object. *)
Definition registrations (o : ObjRef) (st : State) : nat :=
  length (filter (λ a, TRidgiBodyObject.gameObject a = o) (bodies st)).

(** A computation keeps a property of the state when the state it
    leaves, thrown or returned, has it whenever the one it started from
    did. *)
Definition preserves {A} (P : State → Prop) (m : Js A) : Prop :=
  ∀ st, P st → P (final (m st)).

(** Where a body is and how it is turned. *)
Definition poseOf (st : State) (h : nat) : option (RAPIER.Vector2 * float) :=
  (λ b, (RAPIER.translation b, RAPIER.rotation b)) <$> RAPIER.rigidBodies (world st) !! h.

(** What a run of frames keeps of a state [st0] for a display object
    [o]: the object as it was, the array of entries, and the kind of
    every body. *)
Definition pinned (o : ObjRef) (st0 st : State) : Prop :=
  scene st o = scene st0 o
  ∧ bodies st = bodies st0
  ∧ ∀ h, kindOf st h = kindOf st0 h.

(** The line style of segment [k] were the colours four floats to a
    segment, in step with the vertices. *)
Definition lockstepStyle (colors : list float) (k : nat) : Phaser.DrawCall :=
  Phaser.lineStyle 2
    (Phaser.GetColor (times255 (colors !! (4 * k)))
                     (times255 (colors !! (4 * k + 1)))
                     (times255 (colors !! (4 * k + 2))))
    (colors !! (4 * k + 3)).

(** The line style of segment [k] with the colours eight floats to a
    segment, the first four of them read. *)
Definition segmentStyle (colors : list float) (k : nat) : Phaser.DrawCall :=
  Phaser.lineStyle 2
    (Phaser.GetColor (times255 (colors !! (8 * k)))
                     (times255 (colors !! (8 * k + 1)))
                     (times255 (colors !! (8 * k + 2))))
    (colors !! (8 * k + 3)).

Definition segmentLine (vertices : list float) (k : nat) : Phaser.DrawCall :=
  Phaser.lineBetween (vertices !! (4 * k)) (vertices !! (4 * k + 1))
                     (vertices !! (4 * k + 2)) (vertices !! (4 * k + 3)).

(** What C5 says of an entry in a state: the callback returns with one
    more line on the console, the diagnostic. *)
Definition reportsMisuse `{!RAPIER.Angles} (body : TRidgiBodyObject.t) (st : State) : Prop :=
  ∃ st', syncBody body st = Returned tt st'
         ∧ trace st' = trace st ++ [console_error mirrorMisuse].

(** * Notions for the rest of the adapter *)

(** The shape kinds [addRidgiBody] builds a collider for. *)
Definition supported (k : ShapeType) : bool :=
  match k with
  | Ball | Capsule | Cuboid | Triangle | RoundCuboid | RoundTriangle => true
  | _ => false
  end.

(** The options [addRigidBody] builds a collider for: all but a
    shape-kind number outside the six. *)
Definition builds (rapierOptions : option TRapierOptions.t) : bool :=
  match rapierOptions ≫= TRapierOptions.collider with
  | Some (TRapierOptions.ofShapeType k) => supported k
  | _ => true
  end.

(** A display object once the three assignments of the engine-driven
    branch of [update] have run for a body. *)
Definition driven (rb : RAPIER.RigidBody) (g : Phaser.GameObject) : Phaser.GameObject :=
  Phaser.set_rotation (RAPIER.rotation rb)
    (Phaser.set_y (RAPIER.y (RAPIER.translation rb))
       (Phaser.set_x (RAPIER.x (RAPIER.translation rb)) g)).

(** What one entry does in a frame to the display object [o], the
    bodies being those of [st]: it writes it when it holds it, its body is
    not fixed and its flag is not set. *)
Definition drive (st : State) (o : ObjRef) (g : Phaser.GameObject)
    (a : TRidgiBodyObject.t) : Phaser.GameObject :=
  match RAPIER.rigidBodies (world st) !! TRidgiBodyObject.rigidBody a with
  | Some rb =>
      if bool_decide (TRidgiBodyObject.gameObject a = o)
         && negb (RAPIER.isFixed rb)
         && negb (TRidgiBodyObject.phaserTransformations a)
      then driven rb g
      else g
  | None => g
  end.

(** The variables of the closure apart from the world. *)
Definition adapterVars (st : State) :=
  (bodies st, debugEnabled st, eventQueue st, queues st, debugGraphics st, nextRecord st).

(** What the frame loop's callback never changes of a body and of a
    collider. *)
Definition bodyFacts (b : RAPIER.RigidBody) :=
  (RAPIER.bodyType b, RAPIER.translation b, RAPIER.rotation b, RAPIER.userData b).

Definition colliderFacts (c : RAPIER.Collider) := (RAPIER.shape c, RAPIER.parent c).

Definition synced (st st' : State) : Prop :=
  adapterVars st' = adapterVars st
  ∧ RAPIER.nextBody (world st') = RAPIER.nextBody (world st)
  ∧ RAPIER.nextCollider (world st') = RAPIER.nextCollider (world st)
  ∧ (∀ h, bodyFacts <$> RAPIER.rigidBodies (world st') !! h
          = bodyFacts <$> RAPIER.rigidBodies (world st) !! h)
  ∧ (∀ c, colliderFacts <$> RAPIER.colliders (world st') !! c
          = colliderFacts <$> RAPIER.colliders (world st) !! c).

(** An entry whose body and collider the world holds. *)
Definition live (st : State) (a : TRidgiBodyObject.t) : Prop :=
  is_Some (RAPIER.rigidBodies (world st) !! TRidgiBodyObject.rigidBody a)
  ∧ is_Some (RAPIER.colliders (world st) !! TRidgiBodyObject.collider a).

(** The state of an adapter whose world was only ever touched through
    it: the records are distinct, no two entries share a body, every
    entry's body is in the world with the entry's collider attached to it,
    and the handles still to come are free. *)
Definition sound (st : State) : Prop :=
  wf st
  ∧ NoDup (TRidgiBodyObject.rigidBody <$> bodies st)
  ∧ (∀ a, a ∈ bodies st →
          is_Some (RAPIER.rigidBodies (world st) !! TRidgiBodyObject.rigidBody a)
          ∧ RAPIER.parent <$> RAPIER.colliders (world st) !! TRidgiBodyObject.collider a
            = Some (TRidgiBodyObject.rigidBody a))
  ∧ (∀ h, RAPIER.nextBody (world st) ≤ h → RAPIER.rigidBodies (world st) !! h = None)
  ∧ (∀ c, RAPIER.nextCollider (world st) ≤ c → RAPIER.colliders (world st) !! c = None)
  ∧ (∀ c col, RAPIER.colliders (world st) !! c = Some col →
              RAPIER.parent col < RAPIER.nextBody (world st)).

(** A tick of the simulation makes and drops no body or collider and
    leaves every collider on its body. *)
Definition keepsObjects (sim : RAPIER.Simulation) : Prop :=
  ∀ w,
    RAPIER.nextBody (RAPIER.step sim w) = RAPIER.nextBody w
    ∧ RAPIER.nextCollider (RAPIER.step sim w) = RAPIER.nextCollider w
    ∧ (∀ h, is_Some (RAPIER.rigidBodies (RAPIER.step sim w) !! h)
            ↔ is_Some (RAPIER.rigidBodies w !! h))
    ∧ (∀ c, RAPIER.parent <$> RAPIER.colliders (RAPIER.step sim w) !! c
            = RAPIER.parent <$> RAPIER.colliders w !! c).

(** What can be asked of the adapter: the methods of the object
    [createRapierPhysics] returns, the [free] of a [createEventQueue]
    result, and a frame of the scene. *)
Inductive Call :=
| call_addRigidBody (body : ObjRef) (rapierOptions : option TRapierOptions.t)
| call_debugger (enable : option bool)
| call_destroy (gameObject : ObjRef)
| call_createEventQueue
| call_free
| call_update.

Definition perform `{!RAPIER.Angles} (sim : RAPIER.Simulation) (c : Call) : Js unit :=
  match c with
  | call_addRigidBody body rapierOptions => addRigidBody body rapierOptions;; skip
  | call_debugger enable => debugger enable
  | call_destroy gameObject => destroy gameObject
  | call_createEventQueue => createEventQueue;; skip
  | call_free => free_eventQueue
  | call_update => update sim
  end.

(** The state after a run of calls, a caller that catches what is thrown
    going on with the next. *)
Fixpoint run `{!RAPIER.Angles} (sim : RAPIER.Simulation) (calls : list Call) (st : State) : State :=
  match calls with
  | [] => st
  | c :: calls' => run sim calls' (final (perform sim c st))
  end.

(** A queue the adapter holds no more: it is allocated, it is not the
    one the variable [eventQueue] names, and it is older than any to
    come. *)
Definition orphaned (q : nat) (st : State) : Prop :=
  q ∈ RAPIER.live (queues st)
  ∧ eventQueue st ≠ Some q
  ∧ q < RAPIER.nextQueue (queues st).

(** What the tick of a frame writes to the console: the first collider
    handle of each collision event, when there is a queue to drain. *)
Definition collisionLog (sim : RAPIER.Simulation) (st : State) : list Effect :=
  match eventQueue st with
  | Some _ => (λ event, console_log (RAPIER.handle1 event)) <$> RAPIER.collisions sim (world st)
  | None => []
  end.

(** What one entry writes to the console in a frame, the bodies being
    those of [st]: the diagnostic, when its flag is set and its body is
    dynamic or kinematic velocity-based. *)
Definition complaint (st : State) (a : TRidgiBodyObject.t) : list Effect :=
  match kindOf st (TRidgiBodyObject.rigidBody a) with
  | Some Dynamic | Some KinematicVelocityBased =>
      if TRidgiBodyObject.phaserTransformations a
      then [console_error mirrorMisuse]
      else []
  | _ => []
  end.

(** A body once the mirroring branch of [update] has run for it with the
    display object [g]. *)
Definition mirrored `{!RAPIER.Angles} (g : Phaser.GameObject) (rb : RAPIER.RigidBody) : RAPIER.RigidBody :=
  RAPIER.setNextKinematicRotation (Phaser.rotation g)
    (RAPIER.setNextKinematicTranslation
       {| RAPIER.x := (Phaser.x g - Phaser.displayWidth g * (Phaser.originX g - 0.5))%float;
          RAPIER.y := Phaser.y g |}
       rb).

(** A body of the world that no entry holds and no collider is attached
    to. *)
Definition stray (h : nat) (st : State) : Prop :=
  is_Some (RAPIER.rigidBodies (world st) !! h)
  ∧ h < RAPIER.nextBody (world st)
  ∧ (∀ a, a ∈ bodies st → TRidgiBodyObject.rigidBody a ≠ h)
  ∧ (∀ c col, RAPIER.colliders (world st) !! c = Some col → RAPIER.parent col ≠ h).

(** * A scene to run the adapter on *)

(** The engine of the scene gives an angle back as its nearest
    single-precision value. *)
#[global] Instance roundedAngles : RAPIER.Angles | 100 :=
  {| RAPIER.angle := RAPIER.fround |}.

(** A 64 by 32 sprite at (300, 200), turned by half a radian, with its
    origin at the left edge. Every reference of the scene leads to one
    like it. *)
Definition sprite : Phaser.GameObject :=
  {| Phaser.x := 300; Phaser.y := 200; Phaser.rotation := 0.5;
     Phaser.displayWidth := 64; Phaser.displayHeight := 32;
     Phaser.originX := 0; Phaser.active := true |}.

Definition start : State := createRapierPhysics (λ _, sprite).

Definition options (kind : RigidBodyType) (shape : ShapeType) (mirror : bool)
  : TRapierOptions.t :=
  {| TRapierOptions.rigidBodyType := Some kind;
     TRapierOptions.collider := Some (TRapierOptions.ofShapeType shape);
     TRapierOptions.phaserTransformations := Some mirror |}.

(** The entry the first [addRigidBody] on [start] makes for sprite 0. *)
Definition firstEntry (mirror : bool) : TRidgiBodyObject.t :=
  {| TRidgiBodyObject.self := 0;
     TRidgiBodyObject.rigidBody := 0;
     TRidgiBodyObject.collider := 0;
     TRidgiBodyObject.gameObject := 0;
     TRidgiBodyObject.phaserTransformations := mirror |}.

(** Sprite 0 attached once, by kind of body and flag. *)
Definition attached (kind : RigidBodyType) (mirror : bool) : State :=
  final (addRigidBody 0 (Some (options kind Ball mirror)) start).

(** Sprite 0 attached twice: to a fixed body, then to a dynamic one. *)
Definition twice : State :=
  final ((addRigidBody 0 (Some (options Fixed Cuboid false));;
          addRigidBody 0 (Some (options Dynamic Cuboid false))) start).

(** A simulation in which a dynamic body falls by one unit a tick and
    nothing else happens, and whose debug geometry is two segments, the
    first red, the second blue and half transparent. *)
Definition fall (b : RAPIER.RigidBody) : RAPIER.RigidBody :=
  match RAPIER.bodyType b with
  | Dynamic =>
      {| RAPIER.bodyType := RAPIER.bodyType b;
         RAPIER.translation :=
           {| RAPIER.x := RAPIER.x (RAPIER.translation b);
              RAPIER.y := (RAPIER.y (RAPIER.translation b) + 1)%float |};
         RAPIER.rotation := RAPIER.rotation b;
         RAPIER.nextKinematicTranslation := RAPIER.nextKinematicTranslation b;
         RAPIER.nextKinematicRotation := RAPIER.nextKinematicRotation b;
         RAPIER.userData := RAPIER.userData b |}
  | _ => b
  end.

Definition twoSegments : RAPIER.DebugRenderBuffers :=
  {| RAPIER.vertices := [0; 0; 10; 0;  10; 0; 10; 10]%float;
     RAPIER.colors := [1; 0; 0; 1;  1; 0; 0; 1;  0; 0; 1; 0.5;  0; 0; 1; 0.5]%float |}.

Definition falling : RAPIER.Simulation :=
  {| RAPIER.step := RAPIER.setBodies (fmap fall);
     RAPIER.collisions := λ _, [];
     RAPIER.debugRender := λ _, twoSegments |}.

(** Sprite 1 on a dynamic ball and sprite 2 on a fixed box. *)
Definition twoSprites : State :=
  run falling
    [call_addRigidBody 1 (Some (options Dynamic Ball false));
     call_addRigidBody 2 (Some (options Fixed Cuboid false))]
    start.

(** The entry of sprite 1 in [twoSprites]. *)
Definition entryOfSprite1 : TRidgiBodyObject.t :=
  {| TRidgiBodyObject.self := 0;
     TRidgiBodyObject.rigidBody := 0;
     TRidgiBodyObject.collider := 0;
     TRidgiBodyObject.gameObject := 1;
     TRidgiBodyObject.phaserTransformations := false |}.

(** A collider of the caller's own. *)
Definition ownCollider : TRapierOptions.t :=
  {| TRapierOptions.rigidBodyType := None;
     TRapierOptions.collider := Some (TRapierOptions.ofDesc (RAPIER.ball 1.5));
     TRapierOptions.phaserTransformations := None |}.

(** The falling simulation with one contact reported every tick, between
    colliders 7 and 8. *)
Definition bumping : RAPIER.Simulation :=
  {| RAPIER.step := RAPIER.setBodies (fmap fall);
     RAPIER.collisions := λ _, [{| RAPIER.handle1 := 7; RAPIER.handle2 := 8;
                                   RAPIER.started := true |}];
     RAPIER.debugRender := λ _, twoSegments |}.

(** Sprite 1 on a dynamic ball with the flag set, sprite 2 on a fixed box
    with the flag set, and an event queue. *)
Definition flagged : State :=
  run bumping
    [call_addRigidBody 1 (Some (options Dynamic Ball true));
     call_addRigidBody 2 (Some (options Fixed Cuboid true));
     call_createEventQueue]
    start.

(** Sprite 1 on a dynamic ball, then sprite 1 again on a kinematic
    position-based box that mirrors it. The later entry is the earlier in
    the array. *)
Definition followed : State :=
  run falling
    [call_addRigidBody 1 (Some (options KinematicPositionBased Cuboid true));
     call_addRigidBody 1 (Some (options Dynamic Ball false))]
    start.

(** The mirroring entry of [followed]. *)
Definition mirrorOfSprite1 : TRidgiBodyObject.t :=
  {| TRidgiBodyObject.self := 0;
     TRidgiBodyObject.rigidBody := 0;
     TRidgiBodyObject.collider := 0;
     TRidgiBodyObject.gameObject := 1;
     TRidgiBodyObject.phaserTransformations := true |}.

(** The engine-driven entry of [followed]. *)
Definition driverOfSprite1 : TRidgiBodyObject.t :=
  {| TRidgiBodyObject.self := 1;
     TRidgiBodyObject.rigidBody := 1;
     TRidgiBodyObject.collider := 1;
     TRidgiBodyObject.gameObject := 1;
     TRidgiBodyObject.phaserTransformations := false |}.

(** Sprite 0 on a kinematic position-based ball that mirrors it, then
    moved to x = 310 and turned upright by the game. *)
Definition turned : State :=
  set_scene (λ s, <[0 := Phaser.set_rotation 0 (Phaser.set_x 310 (s 0))]> s)
    (attached KinematicPositionBased true).

(** A sprite at x = 0.1, which is no single-precision number. *)
Definition offGrid : Phaser.GameObject :=
  {| Phaser.x := 0x1.999999999999ap-4; Phaser.y := 200; Phaser.rotation := 0.5;
     Phaser.displayWidth := 64; Phaser.displayHeight := 32;
     Phaser.originX := 0; Phaser.active := true |}.

(** It on a kinematic position-based ball that mirrors it. *)
Definition offGridMirrored : State :=
  final (addRigidBody 0 (Some (options KinematicPositionBased Ball true))
           (createRapierPhysics (λ _, offGrid))).

(** A simulation in which a dynamic body falls by one unit a tick and
    comes to rest upright, and nothing else happens. *)
Definition fallUpright (b : RAPIER.RigidBody) : RAPIER.RigidBody :=
  match RAPIER.bodyType b with
  | Dynamic =>
      {| RAPIER.bodyType := RAPIER.bodyType b;
         RAPIER.translation :=
           {| RAPIER.x := RAPIER.x (RAPIER.translation b);
              RAPIER.y := (RAPIER.y (RAPIER.translation b) + 1)%float |};
         RAPIER.rotation := 0;
         RAPIER.nextKinematicTranslation := RAPIER.nextKinematicTranslation b;
         RAPIER.nextKinematicRotation := RAPIER.nextKinematicRotation b;
         RAPIER.userData := RAPIER.userData b |}
  | _ => b
  end.

Definition righting : RAPIER.Simulation :=
  {| RAPIER.step := RAPIER.setBodies (fmap fallUpright);
     RAPIER.collisions := λ _, [];
     RAPIER.debugRender := λ _, twoSegments |}.

(** A body that has made half a turn: its rotation is the
    single-precision number next to [-pi], -3.1415927410125732. *)
Definition halfTurned : State :=
  set_world (RAPIER.setBodies (fmap (λ b,
    {| RAPIER.bodyType := RAPIER.bodyType b;
       RAPIER.translation := RAPIER.translation b;
       RAPIER.rotation := (-0x1.921fb6p+1)%float;
       RAPIER.nextKinematicTranslation := RAPIER.nextKinematicTranslation b;
       RAPIER.nextKinematicRotation := RAPIER.nextKinematicRotation b;
       RAPIER.userData := RAPIER.userData b |})))
    (attached Dynamic false).

(** * Proofs *)

Ltac js_unfold :=
  unfold mbind, mret, Js_bind, Js_ret, get, modify, emit, skip,
         readObject, writeObject, readBody, writeBody, writeCollider,
         world_createRigidBody, world_createCollider, newRecord in *.

Section adapter.

Context `{!RAPIER.Angles}.

Lemma forEach_emit (l : list Effect) (st : State) :
  forEach emit l st = Returned tt (set_trace (λ t, t ++ l) st).
Proof.
  revert st. induction l as [|e l IH]; intros st.
  - destruct st; cbn. unfold set_trace; cbn. by rewrite app_nil_r.
  - cbn [forEach]. unfold mbind, Js_bind. unfold emit at 1. unfold modify.
    rewrite IH. destruct st; unfold set_trace; cbn.
    by rewrite <- app_assoc.
Qed.

(** [forEach] calls its callback on the elements front to back: a
    callback that writes its argument down leaves the list as it stood. *)
Lemma forEach_front_to_back {A} (line : A → Effect) (l : list A) (st : State) :
  forEach (λ a, emit (line a)) l st = Returned tt (set_trace (λ t, t ++ (line <$> l)) st).
Proof.
  revert st. induction l as [|a l IH]; intros st.
  - destruct st; cbn. unfold set_trace; cbn. by rewrite app_nil_r.
  - cbn [forEach]. unfold mbind, Js_bind. unfold emit at 1. unfold modify.
    rewrite IH. destruct st; unfold set_trace; cbn.
    by rewrite <- app_assoc.
Qed.

Lemma forEach_app {A} (f : A → Js unit) (l1 l2 : list A) (st : State) :
  forEach f (l1 ++ l2) st = (forEach f l1;; forEach f l2) st.
Proof.
  revert st. induction l1 as [|a l1 IH]; intros st; [done|].
  cbn [app forEach]. unfold mbind, Js_bind in *.
  destruct (f a st) as [[] st1|e st1]; [apply IH|done].
Qed.

(** [addRidgiBody], step by step: the diagnostics, the body, then the
    collider, which is where a number for a descriptor stops it. *)
Lemma addRidgiBody_unfold (body : ObjRef) (kind : option RigidBodyType)
    (colliderDesc : option TRapierOptions.Collider) (flag : option bool) (st : State) :
  let g := scene st body in
  let selected := selectColliderDesc g colliderDesc in
  let created := RAPIER.nextBody (world st) in
  let st1 :=
    set_world (RAPIER.setBodies
                 (<[created := bodyAt (RAPIER.status (selectRigidBodyDesc kind)) body g]>))
      (set_world (λ w, {| RAPIER.rigidBodies := RAPIER.rigidBodies w;
                          RAPIER.colliders := RAPIER.colliders w;
                          RAPIER.nextBody := S (RAPIER.nextBody w);
                          RAPIER.nextCollider := RAPIER.nextCollider w |})
         (set_trace (λ t, t ++ selected.2) st)) in
  addRidgiBody body kind colliderDesc flag st =
  match selected.1 with
  | RAPIER.JsNumber _ => Thrown TypeError st1
  | RAPIER.JsDesc d =>
      let c := RAPIER.nextCollider (world st) in
      Returned {| TRidgiBodyObject.self := nextRecord st;
                  TRidgiBodyObject.rigidBody := created;
                  TRidgiBodyObject.collider := c;
                  TRidgiBodyObject.gameObject := body;
                  TRidgiBodyObject.phaserTransformations := default false flag |}
               (set_nextRecord (S (nextRecord st))
                  (set_world (λ w, {| RAPIER.rigidBodies := RAPIER.rigidBodies w;
                                      RAPIER.colliders :=
                                        <[c := {| RAPIER.shape := d;
                                                  RAPIER.parent := created;
                                                  RAPIER.collider_rotation :=
                                                    RAPIER.angle (Phaser.rotation g) |}]>
                                          (RAPIER.colliders w);
                                      RAPIER.nextBody := RAPIER.nextBody w;
                                      RAPIER.nextCollider := S c |}) st1))
  end.
Proof.
  cbv zeta. unfold addRidgiBody.
  unfold mbind, mret, Js_bind, Js_ret, readObject, world_createRigidBody,
         world_createCollider, newRecord.
  destruct (selectColliderDesc (scene st body) colliderDesc) as [d diags] eqn:E.
  rewrite forEach_emit. cbn.
  destruct d as [d|k]; [|reflexivity].
  cbn. by rewrite lookup_insert_eq.
Qed.

Lemma addRigidBody_unfold (body : ObjRef) (rapierOptions : option TRapierOptions.t) (st : State) :
  addRigidBody body rapierOptions st =
  match addRidgiBody body
          (rapierOptions ≫= TRapierOptions.rigidBodyType)
          (rapierOptions ≫= TRapierOptions.collider)
          (rapierOptions ≫= TRapierOptions.phaserTransformations) st with
  | Returned a st' =>
      Returned {| TPhysicsObject.rigidBody := TRidgiBodyObject.rigidBody a;
                  TPhysicsObject.collider := TRidgiBodyObject.collider a;
                  TPhysicsObject.gameObject := TRidgiBodyObject.gameObject a |}
               (set_bodies (cons a) st')
  | Thrown e st' => Thrown e st'
  end.
Proof.
  unfold addRigidBody, mbind, Js_bind.
  by destruct (addRidgiBody _ _ _ _ st).
Qed.

(** C3, as the code has it. Whatever the options, [addRigidBody] makes
    the body from the display object's position and rotation as they are
    when the call is made, and the engine keeps them in single precision.
    In the state the call leaves (whether it returns or not) the world
    holds, under the handle the creation took, a body whose translation
    is the display object's [(x, y)] rounded to single precision and whose
    rotation is what the engine gives back for the display object's
    rotation; a record that is returned names that handle. The
    translation is the display object's own [(x, y)] when these are
    single-precision numbers already. *)
Theorem addRigidBody_initial_pose (body : ObjRef)
    (rapierOptions : option TRapierOptions.t) (st : State) :
  let g := scene st body in
  let created := RAPIER.nextBody (world st) in
  let attached := addRigidBody body rapierOptions st in
  (∃ b, RAPIER.rigidBodies (world (final attached)) !! created = Some b
        ∧ RAPIER.translation b
          = {| RAPIER.x := RAPIER.fround (Phaser.x g);
               RAPIER.y := RAPIER.fround (Phaser.y g) |}
        ∧ RAPIER.rotation b = RAPIER.angle (Phaser.rotation g)
        ∧ (RAPIER.fround (Phaser.x g) = Phaser.x g →
           RAPIER.fround (Phaser.y g) = Phaser.y g →
           RAPIER.translation b = {| RAPIER.x := Phaser.x g; RAPIER.y := Phaser.y g |}))
  ∧ (∀ r st', attached = Returned r st' → TPhysicsObject.rigidBody r = created).
Proof.
  cbv zeta. rewrite addRigidBody_unfold, addRidgiBody_unfold. cbv zeta.
  destruct (selectColliderDesc _ _).1 as [d|k]; cbn; split.
  - eexists. rewrite lookup_insert_eq. split_and!; try done.
    cbn. by intros -> ->.
  - by intros r st' [= <- _].
  - eexists. rewrite lookup_insert_eq. split_and!; try done.
    cbn. by intros -> ->.
  - by intros r st' [=].
Qed.

Lemma selectColliderDesc_reference (g : Phaser.GameObject) (kind : option ShapeType)
    (d : RAPIER.ColliderDesc) :
  referenceCollider (Phaser.displayWidth g) (Phaser.displayHeight g) kind = Some d →
  selectColliderDesc g (TRapierOptions.ofShapeType <$> kind) = (RAPIER.JsDesc d, []).
Proof.
  destruct kind as [[]|]; cbn; intros [= <-]; reflexivity.
Qed.

(** C4. The mapping from shape kinds to colliders is the reference one:
    when the options ask for a box, a ball, a capsule, a triangle, a
    rounded box or a rounded triangle, or for no shape at all,
    [addRigidBody] returns, and the collider of the record it returns has
    the shape [referenceCollider] gives for the display object's width and
    height and is attached to the record's body, turned as that body is.
    This holds for every width and height, the positive ones included. *)
Theorem addRigidBody_shape_mapping (body : ObjRef)
    (rapierOptions : option TRapierOptions.t) (kind : option ShapeType)
    (d : RAPIER.ColliderDesc) (st : State) :
  rapierOptions ≫= TRapierOptions.collider = TRapierOptions.ofShapeType <$> kind →
  referenceCollider (Phaser.displayWidth (scene st body))
                    (Phaser.displayHeight (scene st body)) kind = Some d →
  ∃ r st',
    addRigidBody body rapierOptions st = Returned r st'
    ∧ RAPIER.colliders (world st') !! TPhysicsObject.collider r
      = Some {| RAPIER.shape := d;
                RAPIER.parent := TPhysicsObject.rigidBody r;
                RAPIER.collider_rotation := RAPIER.angle (Phaser.rotation (scene st body)) |}
    ∧ trace st' = trace st.
Proof.
  intros Hopt Href.
  rewrite addRigidBody_unfold, addRidgiBody_unfold. cbv zeta.
  rewrite Hopt, (selectColliderDesc_reference _ _ _ Href). cbn.
  do 2 eexists. split; [reflexivity|]. cbn.
  rewrite lookup_insert_eq. split; [done|]. by rewrite app_nil_r.
Qed.

Lemma selectColliderDesc_unimplemented (g : Phaser.GameObject) (k : ShapeType) :
  unimplemented k = true →
  selectColliderDesc g (Some (TRapierOptions.ofShapeType k))
  = (RAPIER.JsNumber k, [console_error (notImplemented k)]).
Proof. by destruct k. Qed.

(** C1, as the code has it. For a shape kind reported as not implemented
    the diagnostic is written, and then the shape-kind number itself goes
    to [world.createCollider] as the descriptor: no default collider takes
    its place. The engine refuses it, so [addRigidBody] throws; by then
    the body is in the world, and no record is returned or kept. *)
Theorem addRigidBody_unimplemented_shape (body : ObjRef)
    (rapierOptions : TRapierOptions.t) (k : ShapeType) (st : State) :
  TRapierOptions.collider rapierOptions = Some (TRapierOptions.ofShapeType k) →
  unimplemented k = true →
  selectColliderDesc (scene st body) (TRapierOptions.collider rapierOptions)
  = (RAPIER.JsNumber k, [console_error (notImplemented k)])
  ∧ ∃ st',
      addRigidBody body (Some rapierOptions) st = Thrown TypeError st'
      ∧ trace st' = trace st ++ [console_error (notImplemented k)]
      ∧ bodies st' = bodies st
      ∧ RAPIER.colliders (world st') = RAPIER.colliders (world st)
      ∧ is_Some (RAPIER.rigidBodies (world st') !! RAPIER.nextBody (world st)).
Proof.
  intros Hopt Hk.
  pose proof (selectColliderDesc_unimplemented (scene st body) k Hk) as Hsel.
  rewrite Hopt. split; [done|].
  rewrite addRigidBody_unfold, addRidgiBody_unfold. cbv zeta. cbn.
  rewrite Hopt, Hsel. cbn.
  eexists. split; [reflexivity|]. cbn.
  rewrite lookup_insert_eq. by split_and!.
Qed.

(** ** The per-frame callback *)

(** C2, as the code has it. For an entry whose flag is set and whose
    body is kinematic position-based, the callback of the frame loop
    returns, having handed the engine
    [(x - displayWidth * (originX - 0.5), y)] of the display object as
    the body's next kinematic translation, and the display object's
    rotation as the body's next kinematic rotation and as the collider's
    rotation. The engine keeps them in single precision: afterwards the
    body's next kinematic translation is that point with each coordinate
    rounded to single precision, and its next kinematic rotation and the
    collider's rotation are what the engine gives back for that angle.
    The body keeps its kind, translation, rotation and user data, the
    collider its shape and its body. Nothing else changes: the display
    objects, the console, the other bodies and colliders. *)
Theorem syncBody_mirrors_display_object (body : TRidgiBodyObject.t) (st : State)
    (rb : RAPIER.RigidBody) (col : RAPIER.Collider) :
  RAPIER.rigidBodies (world st) !! TRidgiBodyObject.rigidBody body = Some rb →
  RAPIER.colliders (world st) !! TRidgiBodyObject.collider body = Some col →
  RAPIER.bodyType rb = KinematicPositionBased →
  TRidgiBodyObject.phaserTransformations body = true →
  let g := scene st (TRidgiBodyObject.gameObject body) in
  ∃ st' rb' col',
    syncBody body st = Returned tt st'
    ∧ RAPIER.rigidBodies (world st') !! TRidgiBodyObject.rigidBody body = Some rb'
    ∧ RAPIER.nextKinematicTranslation rb'
      = {| RAPIER.x :=
             RAPIER.fround (Phaser.x g - Phaser.displayWidth g * (Phaser.originX g - 0.5));
           RAPIER.y := RAPIER.fround (Phaser.y g) |}
    ∧ RAPIER.nextKinematicRotation rb' = RAPIER.angle (Phaser.rotation g)
    ∧ RAPIER.bodyType rb' = RAPIER.bodyType rb
    ∧ RAPIER.translation rb' = RAPIER.translation rb
    ∧ RAPIER.rotation rb' = RAPIER.rotation rb
    ∧ RAPIER.userData rb' = RAPIER.userData rb
    ∧ RAPIER.colliders (world st') !! TRidgiBodyObject.collider body = Some col'
    ∧ RAPIER.collider_rotation col' = RAPIER.angle (Phaser.rotation g)
    ∧ RAPIER.shape col' = RAPIER.shape col
    ∧ RAPIER.parent col' = RAPIER.parent col
    ∧ scene st' = scene st
    ∧ trace st' = trace st
    ∧ (∀ h, h ≠ TRidgiBodyObject.rigidBody body →
            RAPIER.rigidBodies (world st') !! h = RAPIER.rigidBodies (world st) !! h)
    ∧ (∀ c, c ≠ TRidgiBodyObject.collider body →
            RAPIER.colliders (world st') !! c = RAPIER.colliders (world st) !! c).
Proof.
  intros Hrb Hcol Hkind Hflag g.
  unfold syncBody. js_unfold. rewrite Hrb.
  unfold RAPIER.isFixed, RAPIER.isKinematic. rewrite Hflag, Hkind. cbn.
  rewrite Hrb, Hkind, bool_decide_eq_true_2 by done. cbn.
  rewrite Hrb. cbn. rewrite lookup_insert_eq. cbn. rewrite Hcol.
  do 3 eexists. split; [reflexivity|]. cbn.
  rewrite !lookup_insert_eq. split_and!; try done.
  - intros h Hh. by rewrite !lookup_insert_ne.
  - intros c Hc. by rewrite lookup_insert_ne.
Qed.

(** C5, as the code has it. With the flag set, an entry whose body is
    dynamic or kinematic velocity-based gets the diagnostic and nothing
    else: the callback returns the state it was given with one more line
    on the console, so the body keeps the translation and rotation the
    simulation step gave it and the display object is not written. An
    entry whose body is fixed is passed over before the flag is looked at:
    the state is returned as it was, without a diagnostic. *)
Theorem syncBody_mirror_on_other_kinds (body : TRidgiBodyObject.t) (st : State)
    (rb : RAPIER.RigidBody) :
  RAPIER.rigidBodies (world st) !! TRidgiBodyObject.rigidBody body = Some rb →
  TRidgiBodyObject.phaserTransformations body = true →
  (RAPIER.bodyType rb = Dynamic ∨ RAPIER.bodyType rb = KinematicVelocityBased →
   syncBody body st
   = Returned tt (set_trace (λ t, t ++ [console_error mirrorMisuse]) st))
  ∧ (RAPIER.bodyType rb = Fixed → syncBody body st = Returned tt st).
Proof.
  intros Hrb Hflag. split.
  - intros Hkind. unfold syncBody. js_unfold. rewrite Hrb.
    unfold RAPIER.isFixed, RAPIER.isKinematic. rewrite Hflag.
    destruct Hkind as [Hkind | Hkind]; rewrite Hkind, Hrb, Hkind; reflexivity.
  - intros Hkind. unfold syncBody. js_unfold. rewrite Hrb.
    unfold RAPIER.isFixed. by rewrite Hkind.
Qed.

(** ** Properties kept along a computation *)

Lemma preserves_ret {A} (P : State → Prop) (a : A) : preserves P (mret a).
Proof. by intros st. Qed.

Lemma preserves_bind {A B} (P : State → Prop) (m : Js A) (f : A → Js B) :
  preserves P m → (∀ a, preserves P (f a)) → preserves P (m ≫= f).
Proof.
  intros Hm Hf st HP. specialize (Hm st HP).
  unfold mbind, Js_bind. destruct (m st) as [a st'|e st']; cbn in *.
  - by apply Hf.
  - done.
Qed.

Lemma preserves_modify (P : State → Prop) (f : State → State) :
  (∀ st, P st → P (f st)) → preserves P (modify f).
Proof. intros Hf st HP. by apply Hf. Qed.

Lemma preserves_get {A} (P : State → Prop) (field : State → A) : preserves P (get field).
Proof. by intros st. Qed.

Lemma preserves_forEach {A} (P : State → Prop) (f : A → Js unit) (l : list A) :
  (∀ a, a ∈ l → preserves P (f a)) → preserves P (forEach f l).
Proof.
  induction l as [|a l IH]; intros Hf; cbn [forEach].
  - apply preserves_ret.
  - apply preserves_bind.
    + apply Hf. left.
    + intros _. apply IH. intros b Hb. apply Hf. by right.
Qed.

Lemma kindOf_insert (st : State) (h : nat) (rb rb' : RAPIER.RigidBody) :
  RAPIER.rigidBodies (world st) !! h = Some rb →
  RAPIER.bodyType rb' = RAPIER.bodyType rb →
  ∀ h', kindOf (set_world (RAPIER.setBodies (<[h := rb']>)) st) h' = kindOf st h'.
Proof.
  intros Hrb Hkind h'. unfold kindOf. cbn.
  destruct (decide (h = h')) as [<-|Hne].
  - by rewrite lookup_insert_eq, Hrb; cbn; rewrite Hkind.
  - by rewrite lookup_insert_ne.
Qed.

(** The callback leaves a display object alone unless the entry is the
    object's own and its body is not fixed. *)
Lemma syncBody_pinned (o : ObjRef) (st0 : State) (a : TRidgiBodyObject.t) :
  (TRidgiBodyObject.gameObject a = o →
   kindOf st0 (TRidgiBodyObject.rigidBody a) = Some Fixed) →
  preserves (pinned o st0) (syncBody a).
Proof.
  intros Hfix st (Hs & Hb & Hk).
  unfold syncBody. js_unfold.
  destruct (RAPIER.rigidBodies (world st) !! TRidgiBodyObject.rigidBody a)
    as [rb|] eqn:Hrb; [|done].
  destruct (RAPIER.isFixed rb) eqn:Hfixed; [done|].
  destruct (TRidgiBodyObject.phaserTransformations a).
  - rewrite Hrb.
    destruct (RAPIER.isKinematic rb && _); [|done].
    rewrite Hrb. cbn. rewrite lookup_insert_eq. cbn.
    set (st1 := set_world _ (set_world _ st)).
    assert (pinned o st0 st1) as Hst1.
    { split_and!; [done..|]. intros h. rewrite <- Hk. subst st1.
      etrans.
      { eapply kindOf_insert; [cbn; apply lookup_insert_eq | reflexivity]. }
      eapply kindOf_insert; [exact Hrb | reflexivity]. }
    destruct (RAPIER.colliders (world st) !! TRidgiBodyObject.collider a);
      [|exact Hst1].
    cbn. destruct Hst1 as (? & ? & Hk1). by split_and!.
  - rewrite Hrb. cbn. rewrite Hrb. cbn. rewrite Hrb. cbn.
    split_and!; [|done..].
    destruct (decide (TRidgiBodyObject.gameObject a = o)) as [Ho|Ho].
    + specialize (Hfix Ho). rewrite <- Hk in Hfix. unfold kindOf in Hfix.
      rewrite Hrb in Hfix. injection Hfix as Hfix.
      unfold RAPIER.isFixed in Hfixed. by rewrite Hfix in Hfixed.
    + unfold set_scene; cbn [scene]. by rewrite !fn_lookup_insert_ne.
Qed.

Section frame_loop.

Variable sim : RAPIER.Simulation.

Lemma stepWorld_pinned (o : ObjRef) (st0 : State) :
  keepsKinds sim → preserves (pinned o st0) (stepWorld sim).
Proof.
  intros Hsim. unfold stepWorld.
  assert (preserves (pinned o st0) (modify (set_world (RAPIER.step sim)))) as Hstep.
  { apply preserves_modify. intros st (Hs & Hb & Hk). split_and!; [done..|].
    intros h. rewrite <- Hk. apply Hsim. }
  apply preserves_bind; [apply preserves_get|].
  intros [q|]; [|done].
  apply preserves_bind; [apply preserves_get|]. intros events.
  apply preserves_bind; [done|]. intros _.
  apply preserves_forEach. intros event _.
  apply preserves_modify. by intros st (Hs & Hb & Hk).
Qed.

Lemma syncBodies_pinned (o : ObjRef) (st0 : State) :
  (∀ a, a ∈ bodies st0 → TRidgiBodyObject.gameObject a = o →
        kindOf st0 (TRidgiBodyObject.rigidBody a) = Some Fixed) →
  preserves (pinned o st0) syncBodies.
Proof.
  intros Hfix st HP. unfold syncBodies, mbind, Js_bind, get.
  apply preserves_forEach; [|done].
  intros a Ha. apply syncBody_pinned. intros Ho. apply Hfix; [|done].
  destruct HP as (_ & <- & _). done.
Qed.

Lemma renderDebug_pinned (o : ObjRef) (st0 : State) :
  preserves (pinned o st0) (renderDebug sim).
Proof.
  intros st HP. unfold renderDebug. js_unfold.
  by destruct (debugEnabled st).
Qed.

Lemma update_pinned (o : ObjRef) (st0 : State) :
  keepsKinds sim →
  (∀ a, a ∈ bodies st0 → TRidgiBodyObject.gameObject a = o →
        kindOf st0 (TRidgiBodyObject.rigidBody a) = Some Fixed) →
  preserves (pinned o st0) (update sim).
Proof.
  intros Hsim Hfix. unfold update.
  apply preserves_bind; [by apply stepWorld_pinned|]. intros _.
  apply preserves_bind; [by apply syncBodies_pinned|]. intros _.
  apply renderDebug_pinned.
Qed.

Lemma frames_pinned (o : ObjRef) (st0 : State) (n : nat) :
  keepsKinds sim →
  (∀ a, a ∈ bodies st0 → TRidgiBodyObject.gameObject a = o →
        kindOf st0 (TRidgiBodyObject.rigidBody a) = Some Fixed) →
  preserves (pinned o st0) (frames sim n).
Proof.
  intros Hsim Hfix. induction n as [|n IH]; cbn [frames].
  - apply preserves_ret.
  - apply preserves_bind; [by apply update_pinned|]. by intros _.
Qed.

(** The callback writes targets and display objects, never the pose of
    a body. *)
Lemma syncBody_poses (poses : nat → option (RAPIER.Vector2 * float))
    (a : TRidgiBodyObject.t) :
  preserves (λ st, ∀ h, poseOf st h = poses h) (syncBody a).
Proof.
  intros st HP. unfold syncBody. js_unfold.
  repeat (case_match; simplify_eq/=; try done).
  all: intros h; rewrite <- HP; unfold poseOf; cbn.
  all: destruct (decide (h = TRidgiBodyObject.rigidBody a)) as [->|Hne].
  all: rewrite ?lookup_insert_eq, ?lookup_insert_ne by done; try done.
  all: repeat match goal with
              | H : <[_ := _]> _ !! _ = Some _ |- _ =>
                  rewrite lookup_insert_eq in H; injection H as <-
              end.
  all: by match goal with
          | H : RAPIER.rigidBodies (world _) !! _ = Some _ |- _ => rewrite H
          end.
Qed.

Lemma stepWorld_returns (st : State) :
  ∃ st1, stepWorld sim st = Returned tt st1
         ∧ world st1 = RAPIER.step sim (world st)
         ∧ scene st1 = scene st
         ∧ bodies st1 = bodies st.
Proof.
  unfold stepWorld, mbind, Js_bind, get, modify. destruct (eventQueue st) as [q|].
  - rewrite forEach_front_to_back. by eexists.
  - by eexists.
Qed.

(** Through a whole frame every body keeps the translation and the
    rotation the simulation step gave it. *)
Lemma update_keeps_poses (st : State) (h : nat) :
  poseOf (final (update sim st)) h
  = (λ b, (RAPIER.translation b, RAPIER.rotation b))
      <$> RAPIER.rigidBodies (RAPIER.step sim (world st)) !! h.
Proof.
  destruct (stepWorld_returns st) as (st1 & Hstep & Hworld & _).
  rewrite <- Hworld. change (poseOf (final (update sim st)) h = poseOf st1 h).
  unfold update, mbind at 1, Js_bind at 1. rewrite Hstep.
  revert h.
  apply (preserves_bind (λ st', ∀ h, poseOf st' h = poseOf st1 h)); [| |done].
  - unfold syncBodies. apply preserves_bind; [apply preserves_get|].
    intros l. apply preserves_forEach. intros a _. apply syncBody_poses.
  - intros _ st' HP. unfold renderDebug. js_unfold.
    by destruct (debugEnabled st').
Qed.

(** C9, as the code has it. The callback of the frame loop passes over
    an entry whose body is fixed: it returns the state it was given. And
    when every entry that holds a display object has a fixed body (an
    object attached once to a fixed body is the common case), no number of
    frames changes that object: its position and rotation stay what they
    were, whether or not some frame throws on the way. A simulation that
    never changes the kind of a body is assumed. *)
Theorem fixed_bodies_leave_display_object (o : ObjRef) (st : State) :
  keepsKinds sim →
  (∀ a, a ∈ bodies st → TRidgiBodyObject.gameObject a = o →
        kindOf st (TRidgiBodyObject.rigidBody a) = Some Fixed) →
  (∀ a st', kindOf st' (TRidgiBodyObject.rigidBody a) = Some Fixed →
            syncBody a st' = Returned tt st')
  ∧ ∀ n, scene (final (frames sim n st)) o = scene st o.
Proof.
  intros Hsim Hfix. split.
  - intros a st' Hkind. unfold kindOf in Hkind.
    destruct (RAPIER.rigidBodies (world st') !! TRidgiBodyObject.rigidBody a)
      as [rb|] eqn:Hrb; [|done].
    injection Hkind as Hkind.
    unfold syncBody. js_unfold. rewrite Hrb. unfold RAPIER.isFixed.
    by rewrite Hkind.
  - intros n. by apply (frames_pinned o st n Hsim Hfix st).
Qed.

End frame_loop.

(** ** [destroy] *)

(** Among distinct records, [indexOf] finds the entry where [find] found
    it. *)
Lemma indexOf_find (l : list TRidgiBodyObject.t) (o : ObjRef) (i : nat)
    (body : TRidgiBodyObject.t) :
  NoDup (TRidgiBodyObject.self <$> l) →
  list_find (λ b, TRidgiBodyObject.gameObject b = o) l = Some (i, body) →
  find o l = Some body ∧ indexOf body l = Some i.
Proof.
  intros Hnd Hfind. unfold find, indexOf. rewrite Hfind. split; [done|].
  apply list_find_Some in Hfind as (Hi & _ & _).
  destruct (list_find _ l) as [[j b]|] eqn:Hj; cbn.
  - apply list_find_Some in Hj as (Hj & Hself & _). f_equal.
    apply (NoDup_lookup _ _ _ (TRidgiBodyObject.self body) Hnd);
      rewrite list_lookup_fmap; [rewrite Hj | rewrite Hi]; cbn; congruence.
  - apply list_find_None in Hj.
    by apply (Forall_lookup_1 _ _ _ _ Hj) in Hi.
Qed.

Lemma find_None (l : list TRidgiBodyObject.t) (o : ObjRef) :
  find o l = None ↔ list_find (λ b, TRidgiBodyObject.gameObject b = o) l = None.
Proof. unfold find. by rewrite fmap_None. Qed.

(** Once the only entry of a display object is taken out, none is left. *)
Lemma find_after_delete (l : list TRidgiBodyObject.t) (o : ObjRef) (i : nat)
    (body : TRidgiBodyObject.t) :
  length (filter (λ a, TRidgiBodyObject.gameObject a = o) l) ≤ 1 →
  list_find (λ b, TRidgiBodyObject.gameObject b = o) l = Some (i, body) →
  find o (delete i l) = None.
Proof.
  intros Hone (Hi & Ho & Hmin)%list_find_Some.
  apply find_None, list_find_None.
  rewrite delete_take_drop. apply Forall_app. split.
  - apply Forall_lookup. intros j a (Hj & Hlt)%lookup_take_Some. by eapply Hmin.
  - rewrite <- (take_drop_middle l i body Hi) in Hone.
    rewrite list.filter_app, filter_cons_True, length_app in Hone by done.
    cbn in Hone.
    assert (filter (λ a, TRidgiBodyObject.gameObject a = o) (drop (S i) l) = [])
      as Hnil by (apply nil_length_inv; lia).
    apply Forall_forall. intros a Ha Hao.
    apply list_elem_of_In in Ha.
    exact (filter_nil_not_elem_of _ _ _ Hnil Hao Ha).
Qed.

Lemma destroy_found (o : ObjRef) (st : State) (i : nat) (body : TRidgiBodyObject.t) :
  NoDup (TRidgiBodyObject.self <$> bodies st) →
  list_find (λ b, TRidgiBodyObject.gameObject b = o) (bodies st) = Some (i, body) →
  destroy o st =
  Returned tt
    (set_trace (λ t, t ++ [bodies_splice i])
       (set_bodies (delete i)
          (set_trace (λ t, t ++ [gameObject_destroy o])
             (set_scene (λ s, <[o := Phaser.destroy (s o)]> s)
                (set_trace (λ t, t ++ [world_removeRigidBody (TRidgiBodyObject.rigidBody body)])
                   (set_world (RAPIER.removeRigidBody (TRidgiBodyObject.rigidBody body))
                      st)))))).
Proof.
  intros Hnd Hfind.
  destruct (indexOf_find _ _ _ _ Hnd Hfind) as [Hf Hidx].
  apply list_find_Some in Hfind as (_ & Ho & _).
  unfold destroy. js_unfold. rewrite Hf. cbn -[indexOf]. rewrite Hidx, Ho. reflexivity.
Qed.

Lemma destroy_not_found (o : ObjRef) (st : State) :
  find o (bodies st) = None → destroy o st = Returned tt st.
Proof. intros Hf. unfold destroy. js_unfold. by rewrite Hf. Qed.

(** C6, as the code has it. [destroy] looks for the first entry that
    holds the display object. When there is one, it removes the entry's
    body from the world, then destroys the display object, then takes the
    entry out of the array, in that order, and returns. When there is
    none it returns the state as it was. A second [destroy] of the same
    object is therefore without effect when the object was held by at most
    one entry; an object held by more loses one entry per call. The
    records of the array are distinct objects, as in every state the
    adapter reaches. *)
Theorem destroy_removes_first_entry (o : ObjRef) (st : State) :
  NoDup (TRidgiBodyObject.self <$> bodies st) →
  (∀ i body,
     list_find (λ b, TRidgiBodyObject.gameObject b = o) (bodies st) = Some (i, body) →
     ∃ st',
       destroy o st = Returned tt st'
       ∧ world st' = RAPIER.removeRigidBody (TRidgiBodyObject.rigidBody body) (world st)
       ∧ scene st' = <[o := Phaser.destroy (scene st o)]> (scene st)
       ∧ bodies st' = delete i (bodies st)
       ∧ length (bodies st') = pred (length (bodies st))
       ∧ trace st' = trace st ++ [world_removeRigidBody (TRidgiBodyObject.rigidBody body);
                                  gameObject_destroy o;
                                  bodies_splice i])
  ∧ (find o (bodies st) = None → destroy o st = Returned tt st)
  ∧ (registrations o st ≤ 1 →
     ∀ st', destroy o st = Returned tt st' → destroy o st' = Returned tt st').
Proof.
  intros Hnd. split_and!.
  - intros i body Hfind. eexists. split; [by apply destroy_found|]. cbn.
    split_and!; try done.
    + apply list_find_Some in Hfind as (Hi & _).
      rewrite length_delete by eauto. lia.
    + by rewrite <- !app_assoc.
  - apply destroy_not_found.
  - intros Hone st' Hst'.
    destruct (list_find (λ b, TRidgiBodyObject.gameObject b = o) (bodies st))
      as [[i body]|] eqn:Hfind.
    + rewrite (destroy_found _ _ _ _ Hnd Hfind) in Hst'. injection Hst' as <-.
      apply destroy_not_found. cbn. by eapply find_after_delete.
    + apply find_None in Hfind.
      rewrite (destroy_not_found _ _ Hfind) in Hst'. injection Hst' as <-.
      by apply destroy_not_found.
Qed.

(** ** The debug renderer *)

Lemma drawLines_segment (vertices colors : list float) (fuel i k : nat) :
  k < fuel →
  i + 4 * k < length vertices →
  drawLines fuel i vertices colors !! (2 * k)
  = Some (Phaser.lineStyle 2
            (Phaser.GetColor (times255 (colors !! ((i + 4 * k) * 2)))
                             (times255 (colors !! ((i + 4 * k) * 2 + 1)))
                             (times255 (colors !! ((i + 4 * k) * 2 + 2))))
            (colors !! ((i + 4 * k) * 2 + 3)))
  ∧ drawLines fuel i vertices colors !! (2 * k + 1)
    = Some (Phaser.lineBetween (vertices !! (i + 4 * k)) (vertices !! (i + 4 * k + 1))
                               (vertices !! (i + 4 * k + 2)) (vertices !! (i + 4 * k + 3))).
Proof.
  revert i k. induction fuel as [|fuel IH]; intros i k Hk Hi; [lia|].
  cbn [drawLines]. rewrite bool_decide_eq_true_2 by lia.
  destruct k as [|k].
  - replace (i + 4 * 0) with i by lia. done.
  - replace (2 * S k) with (S (S (2 * k))) by lia.
    replace (S (S (2 * k)) + 1) with (S (S (2 * k + 1))) by lia.
    cbn [lookup list_lookup].
    replace (i + 4 * S k) with (i + 4 + 4 * k) by lia.
    apply IH; lia.
Qed.

Lemma drawLines_end (vertices colors : list float) (fuel i k : nat) :
  length vertices ≤ i + 4 * k →
  drawLines fuel i vertices colors !! (2 * k) = None.
Proof.
  revert i k. induction fuel as [|fuel IH]; intros i k Hi; [done|].
  cbn [drawLines]. case_bool_decide; [|done].
  destruct k as [|k]; [lia|].
  replace (2 * S k) with (S (S (2 * k))) by lia.
  cbn [lookup list_lookup]. apply IH. lia.
Qed.

Section debug_renderer.

Variable sim : RAPIER.Simulation.

Lemma renderDebug_enabled (st : State) :
  debugEnabled st = true →
  renderDebug sim st
  = Returned tt (set_debugGraphics (λ _, debugLines (RAPIER.debugRender sim (world st))) st).
Proof. intros Hon. unfold renderDebug. js_unfold. by rewrite Hon. Qed.

(** C7, as the code has it. With the debug flag on, the drawing surface
    holds after [update]'s rendering step the calls of [debugLines] on the
    world's debug buffers and nothing else. Segment [k], for every [k]
    with [4k] below the number of vertex floats, is drawn by two calls in
    a row: a line style whose colour comes from the colour floats at
    [8k .. 8k+2], each times 255, with the float at [8k+3] as alpha, and a
    line between the vertex floats at [4k .. 4k+3]. The colour buffer is
    thus read eight floats to a segment, not four; no call is made for a
    [k] past the vertices. *)
Theorem debugLines_reads_colors_by_eight (st : State) (k : nat) :
  let buffers := RAPIER.debugRender sim (world st) in
  let vertices := RAPIER.vertices buffers in
  let colors := RAPIER.colors buffers in
  (debugEnabled st = true →
   debugGraphics (final (renderDebug sim st)) = debugLines buffers)
  ∧ (4 * k < length vertices →
     debugLines buffers !! (2 * k) = Some (segmentStyle colors k)
     ∧ debugLines buffers !! (2 * k + 1) = Some (segmentLine vertices k))
  ∧ (length vertices ≤ 4 * k → debugLines buffers !! (2 * k) = None).
Proof.
  cbv zeta. split_and!.
  - intros Hon. by rewrite renderDebug_enabled.
  - intros Hk. unfold debugLines, segmentStyle, segmentLine.
    destruct (drawLines_segment (RAPIER.vertices (RAPIER.debugRender sim (world st)))
                (RAPIER.colors (RAPIER.debugRender sim (world st)))
                (length (RAPIER.vertices (RAPIER.debugRender sim (world st)))) 0 k)
      as [Hstyle Hline]; [lia..|].
    rewrite Hstyle, Hline. cbn [Nat.add].
    replace (4 * k * 2) with (8 * k) by lia. done.
  - intros Hk. unfold debugLines. apply drawLines_end. lia.
Qed.

End debug_renderer.

(** ** The order of the entries *)

Lemma addRigidBody_prepends (body : ObjRef) (rapierOptions : option TRapierOptions.t)
    (st st' : State) (r : TPhysicsObject.t) :
  addRigidBody body rapierOptions st = Returned r st' →
  ∃ a, bodies st' = a :: bodies st
       ∧ TRidgiBodyObject.gameObject a = body
       ∧ TRidgiBodyObject.rigidBody a = TPhysicsObject.rigidBody r
       ∧ TRidgiBodyObject.collider a = TPhysicsObject.collider r
       ∧ TRidgiBodyObject.self a = nextRecord st
       ∧ nextRecord st' = S (nextRecord st).
Proof.
  rewrite addRigidBody_unfold, addRidgiBody_unfold. cbv zeta.
  destruct (selectColliderDesc _ _).1 as [d|k]; [|done].
  intros [= <- <-]. eexists. by split_and!.
Qed.

Lemma attachAll_bodies (calls : list (ObjRef * option TRapierOptions.t))
    (st st' : State) (rs : list TPhysicsObject.t) :
  attachAll calls st = Returned rs st' →
  ∃ l, bodies st' = l ++ bodies st
       ∧ TRidgiBodyObject.gameObject <$> l = reverse (fst <$> calls).
Proof.
  revert st rs. induction calls as [|[body opts] calls IH]; intros st rs.
  - intros [= <- <-]. by exists [].
  - cbn [attachAll]. unfold mbind, Js_bind.
    destruct (addRigidBody body opts st) as [r st1|] eqn:Hr; [|done].
    destruct (attachAll calls st1) as [rs' st2|] eqn:Hrs; [|done].
    intros [= <- <-].
    apply addRigidBody_prepends in Hr as (a & Ha & Hobj & _).
    apply IH in Hrs as (l & Hl & Hobjs).
    exists (l ++ [a]). rewrite Hl, Ha, <- app_assoc. split; [done|].
    rewrite fmap_app, Hobjs, !fmap_cons, reverse_cons. cbn. by rewrite Hobj.
Qed.

(** ** The event queue *)

(** C10. The [free] that [createEventQueue] returns works on the one
    variable [eventQueue] of the adapter. After a second
    [createEventQueue], the [free] of the first call releases the second
    queue, the one the variable holds, and clears the variable, so that
    the next frame steps the world without a queue; the first queue stays
    as it was. With the variable clear, the [free] of any call returns the
    state as it was. *)
Theorem free_releases_current_queue (st : State) :
  ∃ first st1 second st2 st3,
    createEventQueue st = Returned first st1
    ∧ createEventQueue st1 = Returned second st2
    ∧ TEventQueue.eventQueue first ≠ TEventQueue.eventQueue second
    ∧ eventQueue st2 = Some (TEventQueue.eventQueue second)
    ∧ TEventQueue.free first st2 = Returned tt st3
    ∧ eventQueue st3 = None
    ∧ ¬ (TEventQueue.eventQueue second ∈ RAPIER.live (queues st3))
    ∧ (TEventQueue.eventQueue first ∈ RAPIER.live (queues st3))
    ∧ (∀ sim, stepWorld sim st3 = Returned tt (set_world (RAPIER.step sim) st3))
    ∧ (∀ st', eventQueue st' = None →
              TEventQueue.free first st' = Returned tt st'
              ∧ TEventQueue.free second st' = Returned tt st').
Proof.
  do 5 eexists. split_and!; try reflexivity.
  - cbn. lia.
  - cbn. rewrite elem_of_difference, elem_of_singleton. by intros [_ Hne].
  - cbn. apply elem_of_difference. split.
    + apply elem_of_union_r, elem_of_union_l. by apply elem_of_singleton.
    + rewrite elem_of_singleton. lia.
  - intros st' Hnone. cbn. unfold free_eventQueue. js_unfold. by rewrite Hnone.
Qed.

(** ** The states the adapter reaches *)

Lemma wf_createRapierPhysics (objects : ObjRef → Phaser.GameObject) :
  wf (createRapierPhysics objects).
Proof. split; cbn; constructor. Qed.

Lemma wf_addRigidBody (body : ObjRef) (rapierOptions : option TRapierOptions.t) :
  preserves wf (addRigidBody body rapierOptions).
Proof.
  intros st [Hnd Hlt].
  rewrite addRigidBody_unfold, addRidgiBody_unfold. cbv zeta.
  destruct (selectColliderDesc _ _).1 as [d|k]; cbn; [|done].
  split; cbn.
  - constructor; [|done].
    intros (a & Ha & [j Hj]%list_elem_of_lookup)%list_elem_of_fmap.
    apply (Forall_lookup_1 _ _ _ _ Hlt) in Hj. lia.
  - constructor; [cbn; lia|].
    apply Forall_lookup. intros j a Hj.
    apply (Forall_lookup_1 _ _ _ _ Hlt) in Hj. lia.
Qed.

Lemma wf_destroy (o : ObjRef) : preserves wf (destroy o).
Proof.
  intros st [Hnd Hlt].
  destruct (list_find (λ b, TRidgiBodyObject.gameObject b = o) (bodies st))
    as [[i body]|] eqn:Hfind.
  - rewrite (destroy_found _ _ _ _ Hnd Hfind). split; cbn.
    + rewrite list_fmap_delete. eapply sublist_NoDup; [done|apply sublist_delete].
    + by apply Forall_delete.
  - apply find_None in Hfind. by rewrite destroy_not_found.
Qed.

Lemma syncBody_entries (l : list TRidgiBodyObject.t) (n : nat) (a : TRidgiBodyObject.t) :
  preserves (λ st, bodies st = l ∧ nextRecord st = n) (syncBody a).
Proof.
  intros st HP. unfold syncBody. js_unfold.
  repeat (case_match; simplify_eq/=; try done).
Qed.

Lemma wf_debugger (enable : option bool) : preserves wf (debugger enable).
Proof.
  intros st Hwf. unfold debugger. js_unfold.
  by destruct (negb (default true enable)).
Qed.

Lemma wf_createEventQueue : preserves wf createEventQueue.
Proof. by intros st Hwf. Qed.

Lemma wf_free_eventQueue : preserves wf free_eventQueue.
Proof.
  intros st Hwf. unfold free_eventQueue. js_unfold.
  by destruct (eventQueue st).
Qed.

Lemma wf_update (sim : RAPIER.Simulation) : preserves wf (update sim).
Proof.
  intros st Hwf.
  assert (preserves (λ st', bodies st' = bodies st ∧ nextRecord st' = nextRecord st)
            (update sim)) as Hsame.
  { unfold update, stepWorld, syncBodies, renderDebug.
    repeat first
      [ apply syncBody_entries
      | apply preserves_forEach; intros ? _
      | apply preserves_get
      | by apply preserves_modify
      | apply preserves_ret
      | apply preserves_bind; [|intros ?]
      | case_match ]. }
  destruct (Hsame st) as [Hb Hn]; [done|].
  unfold wf. by rewrite Hb, Hn.
Qed.

(** * The rest of [addRigidBody] *)

Lemma selectColliderDesc_number (g : Phaser.GameObject)
    (colliderDesc : option TRapierOptions.Collider) (k : ShapeType) :
  (selectColliderDesc g colliderDesc).1 = RAPIER.JsNumber k
  ↔ colliderDesc = Some (TRapierOptions.ofShapeType k) ∧ supported k = false.
Proof.
  destruct colliderDesc as [[d|k']|]; [|destruct k'|]; cbn.
  all: split; [by intros [= <-] | by intros [[= <-] Hk]].
Qed.

(** X1. [addRigidBody] throws exactly when the collider asked for is a
    shape-kind number outside the six it builds: what is thrown is then
    the TypeError of [world.createCollider]. With no collider, with a
    descriptor, or with one of the six kinds it returns. *)
Theorem addRigidBody_throws_iff (body : ObjRef)
    (rapierOptions : option TRapierOptions.t) (st : State) :
  ((∃ e st', addRigidBody body rapierOptions st = Thrown e st')
   ↔ ∃ k, rapierOptions ≫= TRapierOptions.collider = Some (TRapierOptions.ofShapeType k)
          ∧ supported k = false)
  ∧ (∀ e st', addRigidBody body rapierOptions st = Thrown e st' → e = TypeError).
Proof.
  rewrite addRigidBody_unfold, addRidgiBody_unfold. cbv zeta.
  destruct (selectColliderDesc (scene st body)
              (rapierOptions ≫= TRapierOptions.collider)).1 as [d|k] eqn:Hsel.
  - split; [|done]. split; [by intros (e & st' & [=])|].
    intros (k & Hk). apply selectColliderDesc_number with (g := scene st body) in Hk.
    congruence.
  - apply selectColliderDesc_number in Hsel. split; [|by intros e st' [= <- _]].
    split; [by exists k|]. intros _. by do 2 eexists.
Qed.

(** X2. For a polyline or a height field the chain of tests has no
    branch at all: [addRigidBody] throws as for the kinds it reports, but
    without a line on the console. *)
Theorem addRigidBody_silent_kinds (body : ObjRef) (rapierOptions : TRapierOptions.t)
    (k : ShapeType) (st : State) :
  TRapierOptions.collider rapierOptions = Some (TRapierOptions.ofShapeType k) →
  k = Polyline ∨ k = HeightField →
  ∃ st', addRigidBody body (Some rapierOptions) st = Thrown TypeError st'
         ∧ trace st' = trace st
         ∧ bodies st' = bodies st.
Proof.
  intros Hopt Hk.
  rewrite addRigidBody_unfold, addRidgiBody_unfold. cbv zeta. cbn. rewrite Hopt.
  destruct Hk as [-> | ->]; cbn; eexists; (split; [reflexivity|]); cbn;
    by rewrite app_nil_r.
Qed.

(** X3. A collider given as a descriptor is used as it is: the call
    returns, the collider of the record has that very shape and is
    attached to the record's body, turned as that body is, and the
    console is left alone. *)
Theorem addRigidBody_descriptor (body : ObjRef) (rapierOptions : option TRapierOptions.t)
    (d : RAPIER.ColliderDesc) (st : State) :
  rapierOptions ≫= TRapierOptions.collider = Some (TRapierOptions.ofDesc d) →
  ∃ r st',
    addRigidBody body rapierOptions st = Returned r st'
    ∧ RAPIER.colliders (world st') !! TPhysicsObject.collider r
      = Some {| RAPIER.shape := d;
                RAPIER.parent := TPhysicsObject.rigidBody r;
                RAPIER.collider_rotation := RAPIER.angle (Phaser.rotation (scene st body)) |}
    ∧ trace st' = trace st.
Proof.
  intros Hopt.
  rewrite addRigidBody_unfold, addRidgiBody_unfold. cbv zeta. rewrite Hopt. cbn.
  do 2 eexists. split; [reflexivity|]. cbn.
  rewrite lookup_insert_eq. split; [done|]. by rewrite app_nil_r.
Qed.

(** X4. The defaults of the options. The body of a record that is
    returned has the kind asked for, dynamic when none was, and carries
    the display object as its user data; the entry kept for it has the
    flag asked for, unset when none was; and the record names the display
    object it was made for. *)
Theorem addRigidBody_defaults (body : ObjRef) (rapierOptions : option TRapierOptions.t)
    (st st' : State) (r : TPhysicsObject.t) :
  addRigidBody body rapierOptions st = Returned r st' →
  ∃ a b,
    bodies st' = a :: bodies st
    ∧ TRidgiBodyObject.rigidBody a = TPhysicsObject.rigidBody r
    ∧ TRidgiBodyObject.collider a = TPhysicsObject.collider r
    ∧ TRidgiBodyObject.phaserTransformations a
      = default false (rapierOptions ≫= TRapierOptions.phaserTransformations)
    ∧ TPhysicsObject.gameObject r = body
    ∧ RAPIER.rigidBodies (world st') !! TPhysicsObject.rigidBody r = Some b
    ∧ RAPIER.bodyType b = default Dynamic (rapierOptions ≫= TRapierOptions.rigidBodyType)
    ∧ RAPIER.userData b = Some body.
Proof.
  rewrite addRigidBody_unfold, addRidgiBody_unfold. cbv zeta.
  destruct (selectColliderDesc _ _).1 as [d|k]; [|done].
  intros [= <- <-]. do 2 eexists. cbn. rewrite lookup_insert_eq.
  split_and!; try reflexivity.
  cbn. by destruct (rapierOptions ≫= TRapierOptions.rigidBodyType) as [[]|].
Qed.

(** * The rest of the frame loop *)

(** X5. The engine-driven branch. For an entry whose flag is not set
    and whose body is not fixed, the callback returns with the display
    object's [x] and [y] set to those of the body and its [rotation] to
    the body's rotation as the display object's setter keeps it, wrapped
    into [-pi, pi); the other fields of the object, the other display
    objects, the world and the console are as they were. *)
Theorem syncBody_engine_drives_display (body : TRidgiBodyObject.t) (st : State)
    (rb : RAPIER.RigidBody) :
  RAPIER.rigidBodies (world st) !! TRidgiBodyObject.rigidBody body = Some rb →
  RAPIER.isFixed rb = false →
  TRidgiBodyObject.phaserTransformations body = false →
  let o := TRidgiBodyObject.gameObject body in
  ∃ st',
    syncBody body st = Returned tt st'
    ∧ Phaser.x (scene st' o) = RAPIER.x (RAPIER.translation rb)
    ∧ Phaser.y (scene st' o) = RAPIER.y (RAPIER.translation rb)
    ∧ Phaser.rotation (scene st' o) = Phaser.WrapAngle (RAPIER.rotation rb)
    ∧ Phaser.displayWidth (scene st' o) = Phaser.displayWidth (scene st o)
    ∧ Phaser.displayHeight (scene st' o) = Phaser.displayHeight (scene st o)
    ∧ Phaser.originX (scene st' o) = Phaser.originX (scene st o)
    ∧ Phaser.active (scene st' o) = Phaser.active (scene st o)
    ∧ scene st' o = driven rb (scene st o)
    ∧ (∀ o', o' ≠ o → scene st' o' = scene st o')
    ∧ world st' = world st
    ∧ trace st' = trace st.
Proof.
  intros Hrb Hfixed Hflag o.
  unfold syncBody. js_unfold. rewrite Hrb, Hfixed, Hflag.
  repeat (rewrite Hrb; cbn).
  eexists. split; [reflexivity|].
  unfold set_scene; cbn [scene world trace].
  rewrite !fn_lookup_insert. split_and!; try reflexivity.
  intros o' Ho'. by rewrite !fn_lookup_insert_ne.
Qed.

Lemma synced_refl (st : State) : synced st st.
Proof. by split_and!. Qed.

Lemma synced_trans (st1 st2 st3 : State) :
  synced st1 st2 → synced st2 st3 → synced st1 st3.
Proof.
  intros (Hv & Hb & Hc & Hbs & Hcs) (Hv' & Hb' & Hc' & Hbs' & Hcs').
  split_and!; congruence.
Qed.

Lemma synced_live (st st' : State) (a : TRidgiBodyObject.t) :
  synced st st' → live st a → live st' a.
Proof.
  intros (_ & _ & _ & Hbs & Hcs) [Hb Hc]. split.
  - specialize (Hbs (TRidgiBodyObject.rigidBody a)).
    destruct Hb as [b Hb]. rewrite Hb in Hbs.
    by destruct (RAPIER.rigidBodies (world st') !! _).
  - specialize (Hcs (TRidgiBodyObject.collider a)).
    destruct Hc as [c Hc]. rewrite Hc in Hcs.
    by destruct (RAPIER.colliders (world st') !! _).
Qed.

Lemma synced_drive (st st' : State) (o : ObjRef) (g : Phaser.GameObject)
    (a : TRidgiBodyObject.t) :
  synced st st' → drive st' o g a = drive st o g a.
Proof.
  intros (_ & _ & _ & Hbs & _). unfold drive.
  specialize (Hbs (TRidgiBodyObject.rigidBody a)).
  destruct (RAPIER.rigidBodies (world st') !! _) as [b'|],
           (RAPIER.rigidBodies (world st) !! _) as [b|]; try done.
  injection Hbs as Hkind Htr Hrot _.
  unfold driven, RAPIER.isFixed. by rewrite Hkind, Htr, Hrot.
Qed.

(** The callback on an entry whose body and collider are there: it
    returns, it leaves the facts of every body and collider, and it does
    to each display object what [drive] says. *)
Lemma syncBody_live (a : TRidgiBodyObject.t) (st : State) :
  live st a →
  ∃ st', syncBody a st = Returned tt st'
         ∧ synced st st'
         ∧ ∀ o, scene st' o = drive st o (scene st o) a.
Proof.
  intros [[rb Hrb] [col Hcol]].
  unfold syncBody, drive. js_unfold. rewrite Hrb.
  destruct (RAPIER.isFixed rb) eqn:Hfixed.
  { exists st. split_and!; [done|apply synced_refl|].
    intros o. by rewrite andb_false_r. }
  destruct (TRidgiBodyObject.phaserTransformations a) eqn:Hflag.
  - rewrite Hrb.
    destruct (RAPIER.isKinematic rb && _).
    + rewrite Hrb. cbn. rewrite lookup_insert_eq. cbn. rewrite Hcol.
      eexists. split; [reflexivity|]. split; [|intros o; by rewrite andb_false_r].
      split_and!; try reflexivity.
      * intros h. cbn.
        destruct (decide (h = TRidgiBodyObject.rigidBody a)) as [->|Hne].
        -- by rewrite lookup_insert_eq, Hrb.
        -- by rewrite !lookup_insert_ne.
      * intros c. cbn.
        destruct (decide (c = TRidgiBodyObject.collider a)) as [->|Hne].
        -- by rewrite lookup_insert_eq, Hcol.
        -- by rewrite lookup_insert_ne.
    + eexists. split; [reflexivity|]. split; [by split_and!|].
      intros o. by rewrite andb_false_r.
  - rewrite Hrb. cbn. rewrite Hrb. cbn. rewrite Hrb. cbn.
    eexists. split; [reflexivity|]. split; [by split_and!|].
    intros o. unfold set_scene; cbn [scene]. rewrite andb_true_r.
    case_bool_decide as Ho.
    + subst o. by rewrite !fn_lookup_insert.
    + by rewrite !fn_lookup_insert_ne.
Qed.

(** The loop over entries that are all there. *)
Lemma forEach_syncBody_live (l : list TRidgiBodyObject.t) (st : State) :
  Forall (live st) l →
  ∃ st', forEach syncBody l st = Returned tt st'
         ∧ synced st st'
         ∧ ∀ o, scene st' o = foldl (drive st o) (scene st o) l.
Proof.
  revert st. induction l as [|a l IH]; intros st Hlive.
  - exists st. split_and!; [done|apply synced_refl|done].
  - inversion Hlive as [|? ? Ha Hl]; subst.
    destruct (syncBody_live a st Ha) as (st1 & Hret & Hsync & Hscene).
    destruct (IH st1) as (st' & Hret' & Hsync' & Hscene').
    { apply Forall_lookup. intros i b Hb. apply (synced_live _ _ _ Hsync).
      by apply (Forall_lookup_1 _ _ _ _ Hl) in Hb. }
    exists st'. split_and!.
    + cbn [forEach]. unfold mbind, Js_bind. by rewrite Hret.
    + by eapply synced_trans.
    + intros o. rewrite Hscene', Hscene. cbn [foldl].
      generalize (drive st o (scene st o) a). clear -Hsync.
      induction l as [|b l IHl]; intros g; [done|].
      cbn [foldl]. by rewrite (synced_drive _ _ _ _ _ Hsync), IHl.
Qed.

(** ** Sound states *)

(** Soundness looks at the entries, the record counter and, of the
    world, at which handles are taken and which body each collider is on. *)
Lemma sound_same (st st' : State) :
  bodies st' = bodies st →
  nextRecord st' = nextRecord st →
  RAPIER.nextBody (world st') = RAPIER.nextBody (world st) →
  RAPIER.nextCollider (world st') = RAPIER.nextCollider (world st) →
  (∀ h, is_Some (RAPIER.rigidBodies (world st') !! h)
        ↔ is_Some (RAPIER.rigidBodies (world st) !! h)) →
  (∀ c, RAPIER.parent <$> RAPIER.colliders (world st') !! c
        = RAPIER.parent <$> RAPIER.colliders (world st) !! c) →
  sound st → sound st'.
Proof.
  intros Hb Hn Hnb Hnc Hbs Hcs ([Hnd Hlt] & Hnd' & Hin & Hfb & Hfc & Hpar).
  unfold sound, wf. rewrite Hb, Hn, Hnb, Hnc. split_and!; try done.
  - intros a Ha. destruct (Hin a Ha) as [Hrb Hcol]. split.
    + by apply Hbs.
    + by rewrite Hcs.
  - intros h Hh. apply eq_None_not_Some. rewrite Hbs.
    by rewrite (Hfb h Hh); intros [? [=]].
  - intros c Hc. specialize (Hcs c). rewrite (Hfc c Hc) in Hcs.
    by destruct (RAPIER.colliders (world st') !! c).
  - intros c col Hcol. specialize (Hcs c). rewrite Hcol in Hcs.
    destruct (RAPIER.colliders (world st) !! c) as [col0|] eqn:Hcol0; [|done].
    injection Hcs as ->. by eapply Hpar.
Qed.

Lemma sound_synced (st st' : State) : synced st st' → sound st → sound st'.
Proof.
  intros (Hv & Hnb & Hnc & Hbs & Hcs). injection Hv as Hb _ _ _ _ Hn.
  apply sound_same; try done.
  - intros h. specialize (Hbs h).
    destruct (RAPIER.rigidBodies (world st') !! h),
             (RAPIER.rigidBodies (world st) !! h); try done.
    all: split; intros [? ?]; done.
  - intros c. specialize (Hcs c).
    destruct (RAPIER.colliders (world st') !! c),
             (RAPIER.colliders (world st) !! c); try done.
    cbn in Hcs |- *. injection Hcs as _ Hparent. by rewrite Hparent.
Qed.

Lemma sound_live (st : State) : sound st → Forall (live st) (bodies st).
Proof.
  intros (_ & _ & Hin & _). apply Forall_lookup. intros i a Ha.
  destruct (Hin a) as [Hrb Hcol]; [by eapply list_elem_of_lookup_2|].
  split; [done|]. by destruct (RAPIER.colliders (world st) !! _).
Qed.

Lemma sound_createRapierPhysics (objects : ObjRef → Phaser.GameObject) :
  sound (createRapierPhysics objects).
Proof.
  split_and!; cbn; try done.
  - apply wf_createRapierPhysics.
  - constructor.
  - by intros a Ha%elem_of_nil.
Qed.

Lemma sound_addRigidBody (body : ObjRef) (rapierOptions : option TRapierOptions.t) :
  preserves sound (addRigidBody body rapierOptions).
Proof.
  intros st Hsound.
  pose proof (wf_addRigidBody body rapierOptions st (proj1 Hsound)) as Hwf.
  destruct Hsound as (_ & Hnd & Hin & Hfb & Hfc & Hpar).
  revert Hwf. rewrite addRigidBody_unfold, addRidgiBody_unfold. cbv zeta.
  assert (∀ a, a ∈ bodies st →
               TRidgiBodyObject.rigidBody a ≠ RAPIER.nextBody (world st)) as Hold.
  { intros a [Hrb _]%Hin Heq. rewrite Heq, Hfb in Hrb by done. by destruct Hrb. }
  assert (∀ a, a ∈ bodies st →
               TRidgiBodyObject.collider a ≠ RAPIER.nextCollider (world st)) as Holdc.
  { intros a [_ Hcol]%Hin Heq. by rewrite Heq, Hfc in Hcol. }
  destruct (selectColliderDesc _ _).1 as [d|k]; cbn; intros Hwf.
  - split_and!; cbn; try done.
    + constructor; [|done].
      intros (a & Heq & Ha)%list_elem_of_fmap. by apply (Hold a).
    + intros a [->|Ha]%elem_of_cons; cbn.
      * by rewrite !lookup_insert_eq.
      * rewrite !lookup_insert_ne by (apply not_eq_sym; auto). by apply Hin.
    + intros h Hh. rewrite lookup_insert_ne by lia. apply Hfb. lia.
    + intros c Hc. rewrite lookup_insert_ne by lia. apply Hfc. lia.
    + intros c col.
      destruct (decide (c = RAPIER.nextCollider (world st))) as [->|Hne].
      * rewrite lookup_insert_eq. intros [= <-]. cbn. lia.
      * rewrite lookup_insert_ne by done. intros Hcol%Hpar. lia.
  - split_and!; cbn; try done.
    + intros a Ha.
      rewrite !lookup_insert_ne by (apply not_eq_sym; auto). by apply Hin.
    + intros h Hh. rewrite lookup_insert_ne by lia. apply Hfb. lia.
    + intros c col Hcol%Hpar. lia.
Qed.

Lemma lookup_delete_inv {A} (l : list A) (i j : nat) (x : A) :
  delete i l !! j = Some x → ∃ j', j' ≠ i ∧ l !! j' = Some x.
Proof.
  intros Hj. destruct (decide (j < i)).
  - exists j. split; [lia|]. by rewrite list_lookup_delete_lt in Hj.
  - exists (S j). split; [lia|]. by rewrite list_lookup_delete_ge in Hj by lia.
Qed.

Lemma sound_destroy (o : ObjRef) : preserves sound (destroy o).
Proof.
  intros st Hsound.
  pose proof (wf_destroy o st (proj1 Hsound)) as Hwf.
  pose proof Hsound as ([Hself _] & Hnd & Hin & Hfb & Hfc & Hpar).
  destruct (list_find (λ b, TRidgiBodyObject.gameObject b = o) (bodies st))
    as [[i body]|] eqn:Hfind.
  - revert Hwf. rewrite (destroy_found _ _ _ _ Hself Hfind). cbn. intros Hwf.
    apply list_find_Some in Hfind as (Hi & _ & _).
    assert (∀ a, a ∈ delete i (bodies st) →
                 a ∈ bodies st
                 ∧ TRidgiBodyObject.rigidBody a ≠ TRidgiBodyObject.rigidBody body) as Hother.
    { intros a [j Hj]%list_elem_of_lookup.
      apply lookup_delete_inv in Hj as (j' & Hne & Hj').
      split; [by eapply list_elem_of_lookup_2|].
      intros Heq. apply Hne.
      apply (NoDup_lookup _ _ _ (TRidgiBodyObject.rigidBody body) Hnd);
        rewrite list_lookup_fmap; [rewrite Hj' | rewrite Hi]; cbn; congruence. }
    split_and!; cbn; try done.
    + rewrite list_fmap_delete. eapply sublist_NoDup; [done|apply sublist_delete].
    + intros a [Ha Hne]%Hother. destruct (Hin a Ha) as [Hrb Hcol]. split.
      * by rewrite lookup_delete_ne.
      * destruct (RAPIER.colliders (world st) !! TRidgiBodyObject.collider a)
          as [col|] eqn:Hc; [|done].
        injection Hcol as Hcol.
        erewrite map_lookup_filter_Some_2; [by cbn; rewrite Hcol|done|].
        cbn. congruence.
    + intros h Hh. apply lookup_delete_None. right. by apply Hfb.
    + intros c Hc. apply map_lookup_filter_None. left. by apply Hfc.
    + intros c col [Hcol _]%map_lookup_filter_Some. by eapply Hpar.
  - apply find_None in Hfind. by rewrite destroy_not_found.
Qed.

Lemma sound_debugger (enable : option bool) : preserves sound (debugger enable).
Proof.
  intros st Hsound. unfold debugger. js_unfold.
  destruct (negb (default true enable)); cbn; by eapply sound_same.
Qed.

Lemma sound_createEventQueue : preserves sound createEventQueue.
Proof. intros st Hsound. cbn. by eapply sound_same. Qed.

Lemma sound_free_eventQueue : preserves sound free_eventQueue.
Proof.
  intros st Hsound. unfold free_eventQueue. js_unfold.
  destruct (eventQueue st); cbn; by eapply sound_same.
Qed.

(** What [stepWorld] leaves: the world a tick further, and on the
    console, when there is a queue, the first handle of every collision
    event of the tick, in order. *)
Lemma stepWorld_result (sim : RAPIER.Simulation) (st : State) :
  stepWorld sim st
  = Returned tt
      (set_trace
         (λ t, t ++ match eventQueue st with
                    | Some _ => (λ event, console_log (RAPIER.handle1 event))
                                  <$> RAPIER.collisions sim (world st)
                    | None => []
                    end)
         (set_world (RAPIER.step sim) st)).
Proof.
  unfold stepWorld, mbind, Js_bind, get, modify. destruct (eventQueue st) as [q|] eqn:Hq.
  - rewrite forEach_front_to_back. by destruct st.
  - destruct st; cbn in *. unfold set_trace, set_world; cbn. by rewrite app_nil_r, Hq.
Qed.

Lemma syncBody_adapterVars {T} (v : T) (f : _ → T) (a : TRidgiBodyObject.t) :
  preserves (λ st, f (adapterVars st) = v) (syncBody a).
Proof.
  intros st HP. unfold syncBody. js_unfold.
  repeat (case_match; simplify_eq/=; try done).
Qed.

Section sound_frames.

Variable sim : RAPIER.Simulation.
Hypothesis Hsim : keepsObjects sim.

(** A frame on a sound state returns a sound state, in which every
    display object is what the entries, taken front to back against the
    bodies as the tick left them, have made of it. *)
Lemma update_sound (st : State) :
  sound st →
  ∃ st', update sim st = Returned tt st'
         ∧ sound st'
         ∧ ∀ o, scene st' o
                = foldl (drive (set_world (RAPIER.step sim) st) o) (scene st o) (bodies st).
Proof.
  intros Hsound. unfold update, mbind at 1, Js_bind at 1.
  rewrite stepWorld_result.
  set (st1 := set_trace _ (set_world _ st)).
  destruct (Hsim (world st)) as (Hnb & Hnc & Hbs & Hcs).
  assert (sound st1) as Hsound1 by (eapply sound_same; [..|exact Hsound]; done).
  destruct (forEach_syncBody_live (bodies st1) st1 (sound_live _ Hsound1))
    as (st2 & Hret & Hsync & Hscene).
  assert (sound st2) as Hsound2 by by eapply sound_synced.
  unfold mbind at 1, Js_bind at 1, syncBodies, mbind at 1, Js_bind at 1, get.
  rewrite Hret. unfold renderDebug. js_unfold.
  destruct (debugEnabled st2); eexists; (split; [reflexivity|]); cbn.
  all: split; [by eapply sound_same; [..|exact Hsound2]|exact Hscene].
Qed.

Lemma sound_update : preserves sound (update sim).
Proof.
  intros st Hsound. destruct (update_sound st Hsound) as (st' & -> & Hsound' & _).
  exact Hsound'.
Qed.

Lemma sound_perform (c : Call) : preserves sound (perform sim c).
Proof.
  destruct c; cbn [perform].
  - apply preserves_bind; [apply sound_addRigidBody|]. by intros _ st.
  - apply sound_debugger.
  - apply sound_destroy.
  - apply preserves_bind; [apply sound_createEventQueue|]. by intros _ st.
  - apply sound_free_eventQueue.
  - apply sound_update.
Qed.

Lemma sound_run (calls : list Call) (st : State) : sound st → sound (run sim calls st).
Proof.
  revert st. induction calls as [|c calls IH]; intros st Hsound; [done|].
  cbn [run]. apply IH. by apply sound_perform.
Qed.

End sound_frames.

(** X6. Whatever is asked of the adapter, in whatever order, and
    whatever is thrown on the way, its state stays sound: the entries are
    distinct records with distinct bodies, each body is in the world with
    the entry's collider attached to it, and the handles to come are
    free. The simulation is one that makes and drops nothing itself. *)
Theorem reachable_states_are_sound (sim : RAPIER.Simulation)
    (objects : ObjRef → Phaser.GameObject) (calls : list Call) :
  keepsObjects sim →
  sound (run sim calls (createRapierPhysics objects)).
Proof.
  intros Hsim. apply sound_run; [done|]. apply sound_createRapierPhysics.
Qed.

(** X7. The frame loop does not throw: after any run of calls, [update]
    returns. *)
Theorem update_never_throws (sim : RAPIER.Simulation)
    (objects : ObjRef → Phaser.GameObject) (calls : list Call) :
  keepsObjects sim →
  ∃ st', update sim (run sim calls (createRapierPhysics objects)) = Returned tt st'.
Proof.
  intros Hsim.
  destruct (update_sound sim Hsim (run sim calls (createRapierPhysics objects)))
    as (st' & Hret & _).
  - apply sound_run; [done|]. apply sound_createRapierPhysics.
  - by exists st'.
Qed.

Lemma foldl_drive_none (st : State) (o : ObjRef) (g : Phaser.GameObject)
    (l : list TRidgiBodyObject.t) :
  filter (λ a, TRidgiBodyObject.gameObject a = o) l = [] →
  foldl (drive st o) g l = g.
Proof.
  revert g. induction l as [|b l IH]; intros g Hnone; [done|].
  rewrite filter_cons in Hnone. case_decide as Hb; [done|].
  cbn [foldl]. rewrite IH by done. unfold drive.
  rewrite bool_decide_eq_false_2 by done. by case_match.
Qed.

Lemma foldl_drive_unique (st : State) (g : Phaser.GameObject)
    (l : list TRidgiBodyObject.t) (a : TRidgiBodyObject.t) (rb : RAPIER.RigidBody) :
  a ∈ l →
  length (filter (λ b, TRidgiBodyObject.gameObject b = TRidgiBodyObject.gameObject a) l) = 1 →
  RAPIER.rigidBodies (world st) !! TRidgiBodyObject.rigidBody a = Some rb →
  RAPIER.isFixed rb = false →
  TRidgiBodyObject.phaserTransformations a = false →
  foldl (drive st (TRidgiBodyObject.gameObject a)) g l = driven rb g.
Proof.
  intros Ha Hone Hrb Hfixed Hflag. revert g.
  induction l as [|b l IH]; intros g; [by apply elem_of_nil in Ha|].
  rewrite filter_cons in Hone. cbn [foldl].
  apply elem_of_cons in Ha as [<-|Ha].
  - rewrite decide_True in Hone by done. cbn in Hone.
    rewrite foldl_drive_none by (apply nil_length_inv; lia).
    unfold drive. by rewrite Hrb, Hfixed, Hflag, bool_decide_eq_true_2.
  - case_decide as Hb.
    + cbn in Hone.
      assert (filter (λ b, TRidgiBodyObject.gameObject b = TRidgiBodyObject.gameObject a) l = [])
        as Hnil by (apply nil_length_inv; lia).
      by apply (filter_nil_not_elem_of _ _ a) in Hnil.
    + rewrite <- IH by done. f_equal. unfold drive.
      rewrite bool_decide_eq_false_2 by done. by case_match.
Qed.

(** X8. The engine drives the display through a whole frame. In a sound
    state, for a display object held by one entry only, whose flag is not
    set and whose body the tick leaves other than fixed, [update] returns
    with the object's [x] and [y] those of the body as the tick left it,
    its [rotation] that body's rotation as the display object's setter
    keeps it, wrapped into [-pi, pi), and its other fields as they
    were. *)
Theorem update_engine_drives_display (sim : RAPIER.Simulation) (st : State)
    (a : TRidgiBodyObject.t) (rb : RAPIER.RigidBody) :
  keepsObjects sim →
  sound st →
  a ∈ bodies st →
  registrations (TRidgiBodyObject.gameObject a) st = 1 →
  TRidgiBodyObject.phaserTransformations a = false →
  RAPIER.rigidBodies (RAPIER.step sim (world st)) !! TRidgiBodyObject.rigidBody a = Some rb →
  RAPIER.isFixed rb = false →
  let o := TRidgiBodyObject.gameObject a in
  ∃ st',
    update sim st = Returned tt st'
    ∧ scene st' o = driven rb (scene st o)
    ∧ Phaser.x (scene st' o) = RAPIER.x (RAPIER.translation rb)
    ∧ Phaser.y (scene st' o) = RAPIER.y (RAPIER.translation rb)
    ∧ Phaser.rotation (scene st' o) = Phaser.WrapAngle (RAPIER.rotation rb)
    ∧ Phaser.displayWidth (scene st' o) = Phaser.displayWidth (scene st o)
    ∧ Phaser.displayHeight (scene st' o) = Phaser.displayHeight (scene st o)
    ∧ Phaser.originX (scene st' o) = Phaser.originX (scene st o)
    ∧ Phaser.active (scene st' o) = Phaser.active (scene st o).
Proof.
  intros Hsim Hsound Ha Hone Hflag Hrb Hfixed o.
  destruct (update_sound sim Hsim st Hsound) as (st' & Hret & _ & Hscene).
  exists st'. split; [done|].
  assert (scene st' o = driven rb (scene st o)) as ->.
  { rewrite Hscene. by apply foldl_drive_unique. }
  by split_and!.
Qed.

(** ** The order of the entries, through a frame *)

Lemma addRigidBody_returns (body : ObjRef) (rapierOptions : option TRapierOptions.t)
    (st : State) :
  builds rapierOptions = true →
  ∃ r st', addRigidBody body rapierOptions st = Returned r st'.
Proof.
  intros Hb. rewrite addRigidBody_unfold, addRidgiBody_unfold. cbv zeta.
  destruct (selectColliderDesc (scene st body)
              (rapierOptions ≫= TRapierOptions.collider)).1 as [d|k] eqn:Hsel.
  - by do 2 eexists.
  - apply selectColliderDesc_number in Hsel as [Hc Hk].
    unfold builds in Hb. rewrite Hc in Hb. congruence.
Qed.

Lemma attachAll_returns (calls : list (ObjRef * option TRapierOptions.t)) (st : State) :
  forallb (λ call, builds call.2) calls = true →
  ∃ rs st' l,
    attachAll calls st = Returned rs st'
    ∧ bodies st' = l ++ bodies st
    ∧ TRidgiBodyObject.gameObject <$> l = reverse (fst <$> calls)
    ∧ TRidgiBodyObject.rigidBody <$> l = reverse (TPhysicsObject.rigidBody <$> rs).
Proof.
  revert st. induction calls as [|[body opts] calls IH]; intros st Hb.
  - exists [], st, []. by split_and!.
  - cbn in Hb. apply andb_prop in Hb as [Hb Hbs].
    destruct (addRigidBody_returns body opts st Hb) as (r & st1 & Hr).
    destruct (addRigidBody_prepends _ _ _ _ _ Hr) as (a & Ha & Hobj & Hrb & _).
    destruct (IH st1 Hbs) as (rs & st2 & l & Hrs & Hl & Hobjs & Hrbs).
    exists (r :: rs), st2, (l ++ [a]). split_and!.
    + cbn [attachAll]. unfold mbind, Js_bind. by rewrite Hr, Hrs.
    + by rewrite Hl, Ha, <- app_assoc.
    + rewrite fmap_app, Hobjs, !fmap_cons, reverse_cons. cbn. by rewrite Hobj.
    + rewrite fmap_app, Hrbs, !fmap_cons, reverse_cons. cbn. by rewrite Hrb.
Qed.

Lemma sound_attachAll (calls : list (ObjRef * option TRapierOptions.t)) :
  preserves sound (attachAll calls).
Proof.
  induction calls as [|[body opts] calls IH]; cbn [attachAll].
  - apply preserves_ret.
  - apply preserves_bind; [apply sound_addRigidBody|]. intros r.
    apply preserves_bind; [exact IH|]. intros rs. apply preserves_ret.
Qed.

(** C8. A run of [addRigidBody] calls, each asking for a collider the
    adapter builds, returns with the new entries at the front of
    [bodies], before the entries that were there, in the reverse of the
    order of the calls: the entry of the last call first. The frame loop
    runs its callback on the new entries in that order and then on the
    older ones. What a frame makes of a display object is therefore the
    work of its entries taken from the one attached last to the one
    attached first, each on what the one before has left: the entry
    attached first has the last word. The frame part is for a sound state
    and a simulation that makes and drops nothing itself. *)
Theorem attach_prepends_sync_front_to_back (sim : RAPIER.Simulation) (st : State)
    (calls : list (ObjRef * option TRapierOptions.t)) :
  forallb (λ call, builds call.2) calls = true →
  ∃ rs st' l,
    attachAll calls st = Returned rs st'
    ∧ bodies st' = l ++ bodies st
    ∧ TRidgiBodyObject.gameObject <$> l = reverse (fst <$> calls)
    ∧ TRidgiBodyObject.rigidBody <$> l = reverse (TPhysicsObject.rigidBody <$> rs)
    ∧ syncBodies st' = (forEach syncBody l;; forEach syncBody (bodies st)) st'
    ∧ (keepsObjects sim → sound st →
       ∃ st'',
         update sim st' = Returned tt st''
         ∧ ∀ o, scene st'' o
                = foldl (drive (set_world (RAPIER.step sim) st') o) (scene st' o)
                        (l ++ bodies st)).
Proof.
  intros Hb.
  destruct (attachAll_returns calls st Hb) as (rs & st' & l & Hret & Hl & Hobjs & Hrbs).
  exists rs, st', l. split_and!; try done.
  - unfold syncBodies, mbind at 1, Js_bind at 1, get. by rewrite Hl, forEach_app.
  - intros Hsim Hsound.
    assert (sound st') as Hsound'.
    { pose proof (sound_attachAll calls st Hsound) as Hs. by rewrite Hret in Hs. }
    destruct (update_sound sim Hsim st' Hsound') as (st'' & Hup & _ & Hscene).
    exists st''. split; [done|]. intros o. by rewrite Hscene, Hl.
Qed.

(** X9. [destroy] of one display object leaves the entries of the
    others alone: in a sound state, an entry that holds another object is
    still in the array afterwards, with its body, its collider and its
    display object as they were. *)
Theorem destroy_leaves_other_entries (o : ObjRef) (st : State) (a : TRidgiBodyObject.t) :
  sound st →
  a ∈ bodies st →
  TRidgiBodyObject.gameObject a ≠ o →
  let st' := final (destroy o st) in
  a ∈ bodies st'
  ∧ RAPIER.rigidBodies (world st') !! TRidgiBodyObject.rigidBody a
    = RAPIER.rigidBodies (world st) !! TRidgiBodyObject.rigidBody a
  ∧ RAPIER.colliders (world st') !! TRidgiBodyObject.collider a
    = RAPIER.colliders (world st) !! TRidgiBodyObject.collider a
  ∧ scene st' (TRidgiBodyObject.gameObject a) = scene st (TRidgiBodyObject.gameObject a).
Proof.
  intros ([Hself _] & Hnd & Hin & _) Ha Hne. cbv zeta.
  destruct (list_find (λ b, TRidgiBodyObject.gameObject b = o) (bodies st))
    as [[i body]|] eqn:Hfind.
  - rewrite (destroy_found _ _ _ _ Hself Hfind). cbn.
    apply list_find_Some in Hfind as (Hi & Ho & _).
    pose proof Ha as [j Hj]%list_elem_of_lookup.
    assert (j ≠ i) as Hji by (intros ->; congruence).
    assert (TRidgiBodyObject.rigidBody a ≠ TRidgiBodyObject.rigidBody body) as Hrb.
    { intros Heq. apply Hji.
      apply (NoDup_lookup _ _ _ (TRidgiBodyObject.rigidBody body) Hnd);
        rewrite list_lookup_fmap; [rewrite Hj | rewrite Hi]; cbn; congruence. }
    split_and!.
    + destruct (decide (j < i)).
      * apply (list_elem_of_lookup_2 _ j). by rewrite list_lookup_delete_lt.
      * apply (list_elem_of_lookup_2 _ (pred j)).
        rewrite list_lookup_delete_ge by lia. by replace (S (pred j)) with j by lia.
    + by rewrite lookup_delete_ne.
    + destruct (Hin a Ha) as [_ Hcol].
      destruct (RAPIER.colliders (world st) !! TRidgiBodyObject.collider a)
        as [col|] eqn:Hc; [|done].
      injection Hcol as Hcol.
      apply map_lookup_filter_Some_2; [done|]. cbn. congruence.
    + unfold set_scene; cbn [scene]. rewrite fn_lookup_insert_ne; [done|congruence].
  - apply find_None in Hfind. by rewrite destroy_not_found.
Qed.

(** X10. Attaching and destroying leaves nothing behind. After an
    [addRigidBody] that returned, on a sound state, [destroy] of the same
    display object takes out the entry just made (it is the first one,
    whatever else holds the object): the array, the bodies and the
    colliders of the world are back to what they were, and the display
    object is destroyed. *)
Theorem destroy_undoes_addRigidBody (body : ObjRef) (rapierOptions : option TRapierOptions.t)
    (st st1 : State) (r : TPhysicsObject.t) :
  sound st →
  addRigidBody body rapierOptions st = Returned r st1 →
  ∃ st2,
    destroy body st1 = Returned tt st2
    ∧ bodies st2 = bodies st
    ∧ RAPIER.rigidBodies (world st2) = RAPIER.rigidBodies (world st)
    ∧ RAPIER.colliders (world st2) = RAPIER.colliders (world st)
    ∧ Phaser.active (scene st2 body) = false.
Proof.
  intros Hsound Hret.
  pose proof (wf_addRigidBody body rapierOptions st (proj1 Hsound)) as [Hself _].
  destruct Hsound as (_ & _ & _ & Hfb & Hfc & Hpar).
  revert Hself Hret. rewrite addRigidBody_unfold, addRidgiBody_unfold. cbv zeta.
  destruct (selectColliderDesc _ _).1 as [d|k]; [|done].
  cbn [final]. intros Hself [= <- <-].
  eexists. split.
  { apply destroy_found with (i := 0); [exact Hself|].
    cbn. by rewrite decide_True. }
  cbn. split_and!; try done.
  - apply delete_insert_id. by apply Hfb.
  - rewrite map_filter_insert_False by (cbn; auto).
    rewrite delete_id by by apply Hfc.
    apply map_filter_id. intros c col Hcol%Hpar. cbn. lia.
  - unfold set_scene; cbn. by rewrite fn_lookup_insert.
Qed.

(** * The debug surface *)

Section debug_surface.

Variable sim : RAPIER.Simulation.

(** A frame changes of the closure's variables the drawing surface at
    most. *)
Lemma update_adapterVars {T} (v : T) (f : _ → T) :
  (∀ st calls, f (adapterVars (set_debugGraphics calls st)) = f (adapterVars st)) →
  preserves (λ st, f (adapterVars st) = v) (update sim).
Proof.
  intros Hf. unfold update.
  apply preserves_bind.
  { intros st HP. by rewrite stepWorld_result. }
  intros _. apply preserves_bind.
  { unfold syncBodies. apply preserves_bind; [apply preserves_get|].
    intros l. apply preserves_forEach. intros a _. apply syncBody_adapterVars. }
  intros _ st HP. unfold renderDebug. js_unfold.
  destruct (debugEnabled st); [|done].
  cbv beta iota. unfold final. by rewrite !Hf.
Qed.

Lemma update_debug_off :
  preserves (λ st, (debugEnabled st, debugGraphics st) = (false, [])) (update sim).
Proof.
  unfold update. apply preserves_bind.
  { intros st HP. by rewrite stepWorld_result. }
  intros _. apply preserves_bind.
  { unfold syncBodies. apply preserves_bind; [apply preserves_get|].
    intros l. apply preserves_forEach. intros a _.
    apply (syncBody_adapterVars (false, []) (λ v, (v.1.1.1.1.2, v.1.2)) a). }
  intros _ st HP. unfold renderDebug. js_unfold.
  injection HP as Hoff Hclear. by rewrite Hoff, <- Hoff, <- Hclear.
Qed.

(** X11. Debug drawing switched off stays off the screen: [debugger]
    called with [false] clears the surface, and however many frames
    follow, whether or not one of them throws, the surface stays clear. *)
Theorem debugger_off_clears_for_good (st : State) (n : nat) :
  let st' := final ((debugger (Some false);; frames sim n) st) in
  debugEnabled st' = false ∧ debugGraphics st' = [].
Proof.
  cbv zeta.
  assert (debugger (Some false) st
          = Returned tt (set_debugGraphics (λ _, []) (set_debugEnabled false st)))
    as Hdebugger by reflexivity.
  unfold mbind, Js_bind. rewrite Hdebugger. clear Hdebugger.
  set (st0 := set_debugGraphics _ _).
  assert (preserves (λ s, (debugEnabled s, debugGraphics s) = (false, []))
            (frames sim n)) as Hkeep.
  { induction n as [|n IH]; cbn [frames]; [by intros s|].
    apply preserves_bind; [apply update_debug_off|by intros _]. }
  specialize (Hkeep st0 eq_refl). by injection Hkeep.
Qed.

(** X12. With debug drawing on, a frame that returns leaves on the
    surface the lines of that frame and nothing of the frames before:
    the calls of [debugLines] on the debug buffers of the world as the
    frame leaves it. With debug drawing off it leaves the surface as it
    found it. *)
Theorem update_redraws_surface (st st' : State) :
  update sim st = Returned tt st' →
  debugGraphics st'
  = if debugEnabled st
    then debugLines (RAPIER.debugRender sim (world st'))
    else debugGraphics st.
Proof.
  unfold update. unfold mbind at 1, Js_bind at 1. rewrite stepWorld_result.
  set (st1 := set_trace _ _).
  pose proof (preserves_forEach
                (λ s', id (adapterVars s') = adapterVars st1)
                syncBody (bodies st1)
                (λ a _, syncBody_adapterVars _ _ a) st1 eq_refl) as Hsync.
  unfold mbind at 1, Js_bind at 1, syncBodies, mbind at 1, Js_bind at 1, get.
  destruct (forEach syncBody (bodies st1) st1) as [[] st2|e st2]; [|done].
  cbn in Hsync. injection Hsync as _ Hon _ _ Hdrawn _.
  unfold renderDebug. js_unfold. rewrite Hon. cbn.
  destruct (debugEnabled st); intros [= <-]; [done|]. by rewrite Hdrawn.
Qed.

End debug_surface.

Lemma drawLines_length (vertices colors : list float) (fuel i : nat) :
  length vertices ≤ i + 4 * fuel →
  length (drawLines fuel i vertices colors) = 2 * ((length vertices - i + 3) / 4).
Proof.
  revert i. induction fuel as [|fuel IH]; intros i Hfuel.
  - cbn [drawLines]. replace (length vertices - i) with 0 by lia. reflexivity.
  - cbn [drawLines]. case_bool_decide as Hi.
    + cbn [length]. rewrite IH by lia.
      destruct (decide (i + 4 ≤ length vertices)) as [Hfull|Hpart].
      * replace (length vertices - i + 3)
          with (length vertices - (i + 4) + 3 + 1 * 4) by lia.
        rewrite Nat.div_add by done. lia.
      * replace (length vertices - (i + 4)) with 0 by lia.
        assert (length vertices - i = 1 ∨ length vertices - i = 2
                ∨ length vertices - i = 3) as [-> | [-> | ->]] by lia; reflexivity.
    + replace (length vertices - i) with 0 by lia. reflexivity.
Qed.

(** X13. The size of a frame's drawing. [debugLines] makes two calls
    for every four vertex floats, and two more for a last group of fewer
    than four: such a group is still drawn as a segment, with [undefined]
    for the coordinate that is not there. No vertices, no calls. *)
Theorem debugLines_length (buffers : RAPIER.DebugRenderBuffers) :
  let vertices := RAPIER.vertices buffers in
  length (debugLines buffers) = 2 * ((length vertices + 3) / 4)
  ∧ (∀ k, 4 * k < length vertices → length vertices < 4 * k + 4 →
          ∃ x1 y1 x2,
            debugLines buffers !! (2 * k + 1) = Some (Phaser.lineBetween x1 y1 x2 None))
  ∧ (vertices = [] → debugLines buffers = []).
Proof.
  cbv zeta. split_and!.
  - unfold debugLines. rewrite drawLines_length by lia. by rewrite Nat.sub_0_r.
  - intros k Hk Hlast. unfold debugLines.
    destruct (drawLines_segment (RAPIER.vertices buffers) (RAPIER.colors buffers)
                (length (RAPIER.vertices buffers)) 0 k) as [_ Hline]; [lia..|].
    rewrite Hline. cbn [Nat.add].
    rewrite (lookup_ge_None_2 _ (4 * k + 3)) by lia. by do 3 eexists.
  - intros Hnil. unfold debugLines. by rewrite Hnil.
Qed.

(** * Event queues that are replaced *)

Lemma orphaned_perform (sim : RAPIER.Simulation) (q : nat) (c : Call) :
  preserves (orphaned q) (perform sim c).
Proof.
  destruct c; cbn [perform].
  - apply preserves_bind; [|by intros _ st]. intros st Ho.
    rewrite addRigidBody_unfold, addRidgiBody_unfold. cbv zeta.
    by destruct (selectColliderDesc _ _).1.
  - intros st Ho. unfold debugger. js_unfold.
    by destruct (negb (default true enable)).
  - intros st Ho. unfold destroy. js_unfold.
    destruct (find gameObject (bodies st)) as [body|]; [|done].
    cbn -[indexOf]. by destruct (indexOf body _).
  - apply preserves_bind; [|by intros _ st]. intros st (Hlive & _ & Hlt).
    split_and!; cbn.
    + by apply elem_of_union_r.
    + intros [= Heq]. lia.
    + lia.
  - intros st (Hlive & Hcur & Hlt). unfold free_eventQueue. js_unfold.
    destruct (eventQueue st) as [q'|] eqn:Hq';
      [|unfold orphaned; cbn; by rewrite Hq'].
    split_and!; cbn; [|done..].
    apply elem_of_difference. split; [done|].
    rewrite elem_of_singleton. congruence.
  - intros st Ho.
    pose proof (update_adapterVars sim (eventQueue st, queues st)
                  (λ v, (v.1.1.1.2, v.1.1.2)) (λ _ _, eq_refl) st eq_refl) as Hsame.
    cbn in Hsame. injection Hsame as He Hq.
    unfold orphaned. by rewrite He, Hq.
Qed.

(** X14. A queue that [createEventQueue] has replaced is never
    released. After two calls in a row the first queue is still allocated,
    and it stays so through every run of calls that follows, the [free] of
    either result included: [free] only ever releases the queue the
    variable names, and that is never again the first one. *)
Theorem replaced_queue_is_never_released (sim : RAPIER.Simulation) (st : State)
    (calls : list Call) :
  let first := RAPIER.nextQueue (queues st) in
  let st2 := final ((createEventQueue;; createEventQueue) st) in
  eventQueue st2 = Some (S first)
  ∧ first ∈ RAPIER.live (queues (run sim calls st2)).
Proof.
  cbv zeta. split; [done|].
  assert (∀ s, orphaned (RAPIER.nextQueue (queues st)) s →
               orphaned (RAPIER.nextQueue (queues st)) (run sim calls s)) as Hrun.
  { induction calls as [|c calls IH]; intros s Ho; [done|].
    cbn [run]. apply IH. by apply orphaned_perform. }
  apply Hrun. unfold mbind, Js_bind, createEventQueue. split_and!; cbn.
  - apply elem_of_union_r, elem_of_union_l. by apply elem_of_singleton.
  - intros [= Heq]. lia.
  - lia.
Qed.

(** * The console of a frame *)

Lemma synced_complaint (st st' : State) (a : TRidgiBodyObject.t) :
  synced st st' → complaint st' a = complaint st a.
Proof.
  intros (_ & _ & _ & Hbs & _). unfold complaint, kindOf.
  specialize (Hbs (TRidgiBodyObject.rigidBody a)).
  destruct (RAPIER.rigidBodies (world st') !! _) as [b'|],
           (RAPIER.rigidBodies (world st) !! _) as [b|]; try done.
  injection Hbs as Hkind _ _ _. cbn. by rewrite Hkind.
Qed.

Lemma syncBody_trace (a : TRidgiBodyObject.t) (st : State) :
  live st a →
  trace (final (syncBody a st)) = trace st ++ complaint st a.
Proof.
  intros [[rb Hrb] [col Hcol]].
  unfold syncBody, complaint, kindOf, RAPIER.isFixed, RAPIER.isKinematic.
  js_unfold. rewrite Hrb. cbn.
  destruct (RAPIER.bodyType rb) eqn:Hkind,
           (TRidgiBodyObject.phaserTransformations a) eqn:Hflag; cbn.
  all: rewrite ?Hrb; cbn; rewrite ?Hkind; cbn; rewrite ?app_nil_r; try done.
  all: rewrite ?Hrb; cbn; rewrite ?Hrb; cbn; rewrite ?app_nil_r; try done.
  rewrite bool_decide_eq_true_2 by done. rewrite Hrb. cbn.
  rewrite lookup_insert_eq. cbn. by rewrite Hcol.
Qed.

Lemma forEach_syncBody_trace (l : list TRidgiBodyObject.t) (st : State) :
  Forall (live st) l →
  trace (final (forEach syncBody l st)) = trace st ++ concat (complaint st <$> l).
Proof.
  revert st. induction l as [|a l IH]; intros st Hlive.
  - cbn. by rewrite app_nil_r.
  - inversion Hlive as [|? ? Ha Hl]; subst.
    pose proof (syncBody_trace a st Ha) as Htrace.
    destruct (syncBody_live a st Ha) as (st1 & Hret & Hsync & _).
    rewrite Hret in Htrace. cbn [final] in Htrace.
    cbn [forEach]. unfold mbind, Js_bind. rewrite Hret.
    rewrite IH.
    + rewrite Htrace. cbn [fmap list_fmap concat]. rewrite <- app_assoc. do 2 f_equal.
      clear -Hsync. induction l as [|b l IHl]; [done|].
      cbn. by rewrite (synced_complaint _ _ _ Hsync), IHl.
    + apply Forall_lookup. intros i b Hb. apply (synced_live _ _ _ Hsync).
      by apply (Forall_lookup_1 _ _ _ _ Hl) in Hb.
Qed.

(** X15. What a frame writes to the console. In a sound state [update]
    returns having written, in this order, the first collider handle of
    each collision event of the tick (when an event queue was made), and
    then, going through the entries front to back, one diagnostic for each
    entry whose flag is set and whose body the tick left dynamic or
    kinematic velocity-based. It writes nothing else, and it makes no call
    that removes a body or destroys a display object. *)
Theorem update_console (sim : RAPIER.Simulation) (st : State) :
  keepsObjects sim →
  sound st →
  ∃ st',
    update sim st = Returned tt st'
    ∧ trace st'
      = trace st ++ collisionLog sim st
        ++ concat (complaint (set_world (RAPIER.step sim) st) <$> bodies st).
Proof.
  intros Hsim Hsound. unfold update, mbind at 1, Js_bind at 1.
  rewrite stepWorld_result. fold (collisionLog sim st).
  set (st1 := set_trace _ (set_world _ st)).
  destruct (Hsim (world st)) as (Hnb & Hnc & Hbs & Hcs).
  assert (sound st1) as Hsound1 by (eapply sound_same; [..|exact Hsound]; done).
  pose proof (forEach_syncBody_trace (bodies st1) st1 (sound_live _ Hsound1)) as Htrace.
  destruct (forEach_syncBody_live (bodies st1) st1 (sound_live _ Hsound1))
    as (st2 & Hret & Hsync & _).
  rewrite Hret in Htrace. cbn [final] in Htrace.
  unfold mbind at 1, Js_bind at 1, syncBodies, mbind at 1, Js_bind at 1, get.
  rewrite Hret. unfold renderDebug. js_unfold.
  destruct (debugEnabled st2); eexists; (split; [reflexivity|]); cbn.
  all: rewrite Htrace; cbn; by rewrite <- app_assoc.
Qed.

(** * Mirroring through a whole frame *)

(** The callback writes no body and no collider but its entry's. *)
Lemma syncBody_other_body (a : TRidgiBodyObject.t) (h : nat) (v : option RAPIER.RigidBody) :
  TRidgiBodyObject.rigidBody a ≠ h →
  preserves (λ st, RAPIER.rigidBodies (world st) !! h = v) (syncBody a).
Proof.
  intros Hne st HP. unfold syncBody. js_unfold.
  repeat (case_match; simplify_eq/=; try done).
  all: by rewrite ?lookup_insert_ne by done.
Qed.

Lemma syncBody_other_collider (a : TRidgiBodyObject.t) (c : nat) (v : option RAPIER.Collider) :
  TRidgiBodyObject.collider a ≠ c →
  preserves (λ st, RAPIER.colliders (world st) !! c = v) (syncBody a).
Proof.
  intros Hne st HP. unfold syncBody. js_unfold.
  repeat (case_match; simplify_eq/=; try done).
  all: by rewrite ?lookup_insert_ne by done.
Qed.

(** X16. Mirroring through a whole frame. In a sound state, take an
    entry whose flag is set and whose body the tick leaves kinematic
    position-based. [update] returns, and as the engine stores them the
    body's next kinematic translation is
    [(x - displayWidth * (originX - 0.5), y)], and its next kinematic
    rotation and the collider's rotation are the [rotation], of the
    display object as it is when the entry's turn comes: as the entries
    before it in the array have left it, an engine-driven one having
    written it with the wrapped rotation of its body. The body is
    otherwise as the tick left it, and the collider keeps its shape and
    its body. The entries after it do not touch the body or the collider
    again. When no entry before it holds the display object, that is the
    display object as it was before the frame. *)
Theorem update_mirrors_display (sim : RAPIER.Simulation) (st : State)
    (l1 l2 : list TRidgiBodyObject.t) (a : TRidgiBodyObject.t) (rb : RAPIER.RigidBody) :
  keepsObjects sim →
  sound st →
  bodies st = l1 ++ a :: l2 →
  TRidgiBodyObject.phaserTransformations a = true →
  RAPIER.rigidBodies (RAPIER.step sim (world st)) !! TRidgiBodyObject.rigidBody a = Some rb →
  RAPIER.bodyType rb = KinematicPositionBased →
  let o := TRidgiBodyObject.gameObject a in
  let g := foldl (drive (set_world (RAPIER.step sim) st) o) (scene st o) l1 in
  ∃ st' b c,
    update sim st = Returned tt st'
    ∧ RAPIER.rigidBodies (world st') !! TRidgiBodyObject.rigidBody a = Some b
    ∧ RAPIER.nextKinematicTranslation b
      = {| RAPIER.x :=
             RAPIER.fround (Phaser.x g - Phaser.displayWidth g * (Phaser.originX g - 0.5));
           RAPIER.y := RAPIER.fround (Phaser.y g) |}
    ∧ RAPIER.nextKinematicRotation b = RAPIER.angle (Phaser.rotation g)
    ∧ bodyFacts b = bodyFacts rb
    ∧ RAPIER.colliders (world st') !! TRidgiBodyObject.collider a = Some c
    ∧ RAPIER.collider_rotation c = RAPIER.angle (Phaser.rotation g)
    ∧ RAPIER.parent c = TRidgiBodyObject.rigidBody a
    ∧ (filter (λ b, TRidgiBodyObject.gameObject b = o) l1 = [] → g = scene st o).
Proof.
  intros Hsim Hsound Hbodies Hflag Hrb Hkind o g.
  unfold update, mbind at 1, Js_bind at 1. rewrite stepWorld_result.
  set (st1 := set_trace _ (set_world _ st)).
  destruct (Hsim (world st)) as (Hnb & Hnc & Hbs & Hcs).
  assert (sound st1) as Hsound1 by (eapply sound_same; [..|exact Hsound]; done).
  pose proof (sound_live _ Hsound1) as Hlive.
  change (bodies st1) with (bodies st) in Hlive. rewrite Hbodies in Hlive.
  apply Forall_app in Hlive as [Hlive1 Hlive2].
  inversion Hlive2 as [|? ? Hlivea Hlive3]; subst.
  (* no other entry has the body or the collider of [a] *)
  destruct Hsound1 as (_ & Hnd & Hin & _).
  change (bodies st1) with (bodies st) in Hnd, Hin. rewrite Hbodies in Hnd, Hin.
  assert (∀ b, b ∈ l1 ++ l2 →
               TRidgiBodyObject.rigidBody b ≠ TRidgiBodyObject.rigidBody a
               ∧ TRidgiBodyObject.collider b ≠ TRidgiBodyObject.collider a) as Hother.
  { intros b Hb.
    assert (TRidgiBodyObject.rigidBody b ≠ TRidgiBodyObject.rigidBody a) as Hne.
    { rewrite fmap_app, fmap_cons in Hnd.
      apply list.NoDup_app in Hnd as (_ & Hl1 & Hnd2).
      apply list.NoDup_cons in Hnd2 as [Hl2 _].
      apply elem_of_app in Hb as [Hb|Hb]; intros Heq.
      - apply (Hl1 (TRidgiBodyObject.rigidBody b)).
        + apply list_elem_of_fmap. by exists b.
        + rewrite Heq. apply elem_of_cons. by left.
      - apply Hl2. rewrite <- Heq. apply list_elem_of_fmap. by exists b. }
    split; [exact Hne|]. intros Heq.
    destruct (Hin a) as [_ Hpa]; [apply elem_of_app; right; apply elem_of_cons; by left|].
    destruct (Hin b) as [_ Hpb].
    { apply elem_of_app in Hb as [Hb|Hb]; apply elem_of_app; [by left|right].
      apply elem_of_cons. by right. }
    rewrite Heq, Hpa in Hpb. by injection Hpb as Hpb. }
  (* the entries before [a] *)
  destruct (forEach_syncBody_live l1 st1 Hlive1) as (sa & Hreta & Hsynca & Hscenea).
  assert (RAPIER.rigidBodies (world sa) !! TRidgiBodyObject.rigidBody a = Some rb) as Hrba.
  { pose proof (preserves_forEach
                  (λ s, RAPIER.rigidBodies (world s) !! TRidgiBodyObject.rigidBody a = Some rb)
                  syncBody l1) as Hkeep.
    replace sa with (final (forEach syncBody l1 st1)) by (by rewrite Hreta).
    apply Hkeep; [|exact Hrb].
    intros b Hb. apply syncBody_other_body.
    apply Hother, elem_of_app. by left. }
  pose proof (synced_live _ _ _ Hsynca Hlivea) as [_ [col Hcola]].
  (* the entry itself *)
  assert (∃ sb, syncBody a sa = Returned tt sb
                ∧ RAPIER.rigidBodies (world sb) !! TRidgiBodyObject.rigidBody a
                  = Some (mirrored (scene sa o) rb)
                ∧ RAPIER.colliders (world sb) !! TRidgiBodyObject.collider a
                  = Some (RAPIER.setColliderRotation (Phaser.rotation (scene sa o)) col))
    as (sb & Hretb & Hrbb & Hcolb).
  { unfold syncBody. js_unfold. rewrite Hrba.
    unfold RAPIER.isFixed, RAPIER.isKinematic. rewrite Hflag, Hkind. cbn.
    rewrite Hrba, Hkind, bool_decide_eq_true_2 by done. cbn.
    rewrite Hrba. cbn. rewrite lookup_insert_eq. cbn. rewrite Hcola.
    eexists. split; [reflexivity|]. cbn.
    by rewrite !lookup_insert_eq. }
  destruct (syncBody_live a sa (synced_live _ _ _ Hsynca Hlivea))
    as (sb' & Hretb' & Hsyncb & _).
  rewrite Hretb in Hretb'. injection Hretb' as <-.
  (* the entries after [a] *)
  destruct (forEach_syncBody_live l2 sb) as (sc & Hretc & _ & _).
  { apply Forall_lookup. intros i b Hb.
    apply (synced_live _ _ _ Hsyncb), (synced_live _ _ _ Hsynca).
    by apply (Forall_lookup_1 _ _ _ _ Hlive3) in Hb. }
  assert (RAPIER.rigidBodies (world sc) !! TRidgiBodyObject.rigidBody a
          = Some (mirrored (scene sa o) rb)) as Hrbc.
  { pose proof (preserves_forEach
                  (λ s, RAPIER.rigidBodies (world s) !! TRidgiBodyObject.rigidBody a
                        = Some (mirrored (scene sa o) rb))
                  syncBody l2) as Hkeep.
    replace sc with (final (forEach syncBody l2 sb)) by (by rewrite Hretc).
    apply Hkeep; [|exact Hrbb].
    intros b Hb. apply syncBody_other_body.
    apply Hother, elem_of_app. by right. }
  assert (RAPIER.colliders (world sc) !! TRidgiBodyObject.collider a
          = Some (RAPIER.setColliderRotation (Phaser.rotation (scene sa o)) col)) as Hcolc.
  { pose proof (preserves_forEach
                  (λ s, RAPIER.colliders (world s) !! TRidgiBodyObject.collider a
                        = Some (RAPIER.setColliderRotation (Phaser.rotation (scene sa o)) col))
                  syncBody l2) as Hkeep.
    replace sc with (final (forEach syncBody l2 sb)) by (by rewrite Hretc).
    apply Hkeep; [|exact Hcolb].
    intros b Hb. apply syncBody_other_collider.
    apply Hother, elem_of_app. by right. }
  (* the whole loop, and the debug drawing *)
  assert (forEach syncBody (bodies st1) st1 = Returned tt sc) as Hret.
  { change (bodies st1) with (bodies st). rewrite Hbodies, forEach_app.
    unfold mbind, Js_bind. rewrite Hreta. cbn [forEach].
    unfold mbind, Js_bind. by rewrite Hretb. }
  assert (scene sa o = g) as Hg by apply Hscenea.
  rewrite Hg in Hrbc, Hcolc.
  unfold mbind at 1, Js_bind at 1, syncBodies, mbind at 1, Js_bind at 1, get.
  rewrite Hret. unfold renderDebug. js_unfold.
  assert (RAPIER.parent col = TRidgiBodyObject.rigidBody a) as Hparent.
  { destruct (Hin a) as [_ Hpa]; [apply elem_of_app; right; apply elem_of_cons; by left|].
    destruct Hsynca as (_ & _ & _ & _ & Hcs').
    specialize (Hcs' (TRidgiBodyObject.collider a)).
    rewrite Hcola in Hcs'.
    destruct (RAPIER.colliders (world st1) !! TRidgiBodyObject.collider a)
      as [col1|]; [|done].
    cbn in Hcs', Hpa. injection Hcs' as _ Hp. injection Hpa as Hp'. congruence. }
  exists (if debugEnabled sc
          then set_debugGraphics
                 (λ calls, calls ++ debugLines (RAPIER.debugRender sim (world sc)))
                 (set_debugGraphics (λ _, []) sc)
          else sc),
         (mirrored g rb),
         (RAPIER.setColliderRotation (Phaser.rotation g) col).
  split; [by destruct (debugEnabled sc)|].
  assert (∀ s, (if debugEnabled sc
                then set_debugGraphics
                       (λ calls, calls ++ debugLines (RAPIER.debugRender sim (world sc)))
                       (set_debugGraphics (λ _, []) sc)
                else sc) = s → world s = world sc) as Hworld.
  { intros s <-. by destruct (debugEnabled sc). }
  rewrite (Hworld _ eq_refl), Hrbc, Hcolc.
  split_and!; try done.
  intros Hnone. by apply foldl_drive_none.
Qed.

(** * The body a failed [addRigidBody] leaves behind *)

Lemma stray_same (h : nat) (st st' : State) :
  world st' = world st → bodies st' = bodies st → stray h st → stray h st'.
Proof. unfold stray. by intros -> ->. Qed.

Lemma stray_syncBody (h : nat) (a : TRidgiBodyObject.t) : preserves (stray h) (syncBody a).
Proof.
  intros st (Hb & Hlt & Hent & Hpar). unfold syncBody. js_unfold.
  repeat (case_match; simplify_eq/=; try done).
  all: split_and!; cbn; try done.
  all: rewrite ?lookup_insert_is_Some'; auto.
  intros key col'.
  destruct (decide (key = TRidgiBodyObject.collider a)) as [->|Hne].
  - rewrite lookup_insert_eq. intros [= <-]. cbn. eauto.
  - rewrite lookup_insert_ne by done. eauto.
Qed.

Lemma stray_update (sim : RAPIER.Simulation) (h : nat) :
  keepsObjects sim → preserves (stray h) (update sim).
Proof.
  intros Hsim. unfold update. apply preserves_bind; [|intros _; apply preserves_bind].
  - intros st (Hb & Hlt & Hent & Hpar). rewrite stepWorld_result.
    destruct (Hsim (world st)) as (Hnb & _ & Hbs & Hcs).
    split_and!; cbn.
    + by apply Hbs.
    + by rewrite Hnb.
    + done.
    + intros c col Hcol. specialize (Hcs c). rewrite Hcol in Hcs.
      destruct (RAPIER.colliders (world st) !! c) as [col0|] eqn:Hcol0; [|done].
      injection Hcs as Hcs. rewrite Hcs. by eapply Hpar.
  - unfold syncBodies. apply preserves_bind; [apply preserves_get|].
    intros l. apply preserves_forEach. intros a _. apply stray_syncBody.
  - intros _ st Hs. unfold renderDebug. js_unfold.
    by destruct (debugEnabled st).
Qed.

Lemma stray_addRigidBody (h : nat) (body : ObjRef) (rapierOptions : option TRapierOptions.t) :
  preserves (stray h) (addRigidBody body rapierOptions).
Proof.
  intros st (Hb & Hlt & Hent & Hpar).
  rewrite addRigidBody_unfold, addRidgiBody_unfold. cbv zeta.
  destruct (selectColliderDesc _ _).1 as [d|k]; cbn.
  - split_and!; cbn.
    + rewrite lookup_insert_is_Some'. by right.
    + lia.
    + intros a [->|Ha]%elem_of_cons; cbn; [lia|by apply Hent].
    + intros c col.
      destruct (decide (c = RAPIER.nextCollider (world st))) as [->|Hne].
      * rewrite lookup_insert_eq. intros [= <-]. cbn. lia.
      * rewrite lookup_insert_ne by done. apply Hpar.
  - split_and!; cbn.
    + rewrite lookup_insert_is_Some'. by right.
    + lia.
    + done.
    + done.
Qed.

Lemma stray_destroy (h : nat) (o : ObjRef) : preserves (stray h) (destroy o).
Proof.
  intros st (Hb & Hlt & Hent & Hpar). unfold destroy. js_unfold.
  destruct (find o (bodies st)) as [body|] eqn:Hfind; [|done].
  assert (TRidgiBodyObject.rigidBody body ≠ h) as Hne.
  { apply Hent. unfold find in Hfind.
    destruct (list_find _ (bodies st)) as [[i b]|] eqn:Hb'; [|done].
    injection Hfind as ->. apply list_find_Some in Hb' as (Hi & _).
    by eapply list_elem_of_lookup_2. }
  assert (∀ c col,
            filter (λ kc, RAPIER.parent kc.2 ≠ TRidgiBodyObject.rigidBody body)
                   (RAPIER.colliders (world st)) !! c = Some col →
            RAPIER.parent col ≠ h) as Hpar'.
  { intros c col [Hcol _]%map_lookup_filter_Some. by eapply Hpar. }
  cbn -[indexOf]. destruct (indexOf body _) as [i|]; cbn.
  - split_and!; cbn; try done.
    + by rewrite lookup_delete_ne.
    + intros a [j Hj]%list_elem_of_lookup.
      apply lookup_delete_inv in Hj as (j' & _ & Hj').
      apply Hent. by eapply list_elem_of_lookup_2.
  - split_and!; cbn; try done.
    by rewrite lookup_delete_ne.
Qed.

Lemma stray_perform (sim : RAPIER.Simulation) (h : nat) (c : Call) :
  keepsObjects sim → preserves (stray h) (perform sim c).
Proof.
  intros Hsim. destruct c; cbn [perform].
  - apply preserves_bind; [apply stray_addRigidBody|]. by intros _ st.
  - intros st Hs. unfold debugger. js_unfold.
    by destruct (negb (default true enable)).
  - apply stray_destroy.
  - apply preserves_bind; [|by intros _ st]. by intros st Hs.
  - intros st Hs. unfold free_eventQueue. js_unfold.
    by destruct (eventQueue st).
  - by apply stray_update.
Qed.

(** X17. The body of a failed [addRigidBody] stays for good. When the
    call throws in a sound state, the body it had created by then is in
    the world under the handle that was next, and through every run of
    calls that follows it is still there, no entry holds it and no
    collider is attached to it: no [destroy] reaches it. *)
Theorem failed_attach_leaves_stray_body (sim : RAPIER.Simulation) (body : ObjRef)
    (rapierOptions : option TRapierOptions.t) (st st' : State) (e : Error)
    (calls : list Call) :
  keepsObjects sim →
  sound st →
  addRigidBody body rapierOptions st = Thrown e st' →
  let h := RAPIER.nextBody (world st) in
  let st'' := run sim calls st' in
  RAPIER.userData <$> RAPIER.rigidBodies (world st') !! h = Some (Some body)
  ∧ is_Some (RAPIER.rigidBodies (world st'') !! h)
  ∧ (∀ a, a ∈ bodies st'' → TRidgiBodyObject.rigidBody a ≠ h)
  ∧ (∀ c col, RAPIER.colliders (world st'') !! c = Some col → RAPIER.parent col ≠ h).
Proof.
  intros Hsim (_ & _ & Hin & Hfb & _ & Hpar) Hthrow. cbv zeta.
  revert Hthrow. rewrite addRigidBody_unfold, addRidgiBody_unfold. cbv zeta.
  destruct (selectColliderDesc _ _).1 as [d|k]; [done|].
  intros [= _ <-]. split.
  { cbn. by rewrite lookup_insert_eq. }
  assert (∀ s, stray (RAPIER.nextBody (world st)) s →
               stray (RAPIER.nextBody (world st)) (run sim calls s)) as Hrun.
  { induction calls as [|c calls IH]; intros s Hs; [done|].
    cbn [run]. apply IH. by apply stray_perform. }
  match goal with
  | |- context [run sim calls ?s] => assert (stray (RAPIER.nextBody (world st)) s) as Hs
  end.
  { split_and!; cbn.
    - by rewrite lookup_insert_eq.
    - lia.
    - intros a [Hrb _]%Hin Heq. rewrite Heq, Hfb in Hrb by done. by destruct Hrb.
    - intros c col Hcol%Hpar. lia. }
  apply Hrun in Hs. destruct Hs as (Hb & _ & Hent & Hcol). by split_and!.
Qed.

End adapter.

(** * The theorems at work on the scene *)

Lemma keepsKinds_falling : keepsKinds falling.
Proof.
  intros w h. cbn. rewrite lookup_fmap.
  destruct (RAPIER.rigidBodies w !! h) as [b|]; [|done].
  cbn. f_equal. unfold fall. by destruct (RAPIER.bodyType b) eqn:Hkind.
Qed.

Lemma keepsObjects_falling : keepsObjects falling.
Proof.
  intros w. split_and!; try done.
  intros h. cbn. rewrite lookup_fmap. by rewrite fmap_is_Some.
Qed.

Lemma keepsObjects_righting : keepsObjects righting.
Proof.
  intros w. split_and!; try done.
  intros h. cbn. rewrite lookup_fmap. by rewrite fmap_is_Some.
Qed.

(** Asking for a triangle mesh: the diagnostic, then the throw. *)
Lemma TriMesh_attach_throws :
  ∃ st', addRigidBody 0 (Some (options Dynamic TriMesh false)) start = Thrown TypeError st'
         ∧ trace st' = [console_error "TriMesh not implemented, please use a ColliderDesc object"]
         ∧ bodies st' = [].
Proof.
  destruct (addRigidBody_unimplemented_shape 0 (options Dynamic TriMesh false)
              TriMesh start eq_refl eq_refl)
    as (_ & st' & Hthrow & Htrace & Hbodies & _).
  exists st'. split_and!; [exact Hthrow | exact Htrace | exact Hbodies].
Defined.

(** Asking for a ball on the 64 by 32 sprite: a ball of radius 32. *)
Lemma Ball_attach_radius :
  ∃ r st', addRigidBody 0 (Some (options Dynamic Ball false)) start = Returned r st'
           ∧ RAPIER.shape <$> RAPIER.colliders (world st') !! TPhysicsObject.collider r
             = Some (RAPIER.ball 32).
Proof.
  destruct (addRigidBody_shape_mapping 0 (Some (options Dynamic Ball false))
              (Some Ball) (RAPIER.ball 32) start eq_refl eq_refl)
    as (r & st' & Hret & Hcol & _).
  exists r, st'. split; [exact Hret|]. by rewrite Hcol.
Defined.

(** The mirrored kinematic sprite, origin at its left edge, once the
    game has moved it to x = 310 and turned it upright: the body, whose
    target was turned by 0.5, is sent to (342, 200) and, as the collider,
    turned upright. *)
Lemma mirrored_sprite_target :
  ∃ st' b c,
    syncBody (firstEntry true) turned = Returned tt st'
    ∧ RAPIER.nextKinematicRotation <$> RAPIER.rigidBodies (world turned) !! 0 = Some 0.5%float
    ∧ RAPIER.collider_rotation <$> RAPIER.colliders (world turned) !! 0 = Some 0.5%float
    ∧ RAPIER.rigidBodies (world st') !! 0 = Some b
    ∧ RAPIER.nextKinematicTranslation b = {| RAPIER.x := 342; RAPIER.y := 200 |}
    ∧ RAPIER.nextKinematicRotation b = 0%float
    ∧ RAPIER.colliders (world st') !! 0 = Some c
    ∧ RAPIER.collider_rotation c = 0%float.
Proof.
  destruct (syncBody_mirrors_display_object (firstEntry true) turned
              (bodyAt KinematicPositionBased 0 sprite)
              {| RAPIER.shape := RAPIER.ball 32; RAPIER.parent := 0;
                 RAPIER.collider_rotation := 0.5 |}
              eq_refl eq_refl eq_refl eq_refl)
    as (st' & b & c & Hret & Hb & Htr & Hrot & _ & _ & _ & _ & Hc & Hcrot & _).
  exists st', b, c.
  split_and!; [exact Hret | reflexivity | reflexivity | exact Hb | | | exact Hc |].
  - rewrite Htr. vm_compute. reflexivity.
  - rewrite Hrot. vm_compute. reflexivity.
  - rewrite Hcrot. vm_compute. reflexivity.
Defined.

(** C2 as stated fails on a sprite off the single-precision grid: at
    x = 0.1 the point handed to the engine has x = 32.1, and the body's
    next kinematic translation has x = 32.099998474121094. *)
Lemma offgrid_sprite_not_mirrored_exactly :
  RAPIER.bodyType <$> RAPIER.rigidBodies (world offGridMirrored) !! 0
  = Some KinematicPositionBased
  ∧ bodies offGridMirrored = [firstEntry true]
  ∧ RAPIER.x <$> (RAPIER.nextKinematicTranslation
                    <$> RAPIER.rigidBodies
                          (world (final (syncBody (firstEntry true) offGridMirrored))) !! 0)
    = Some 0x1.00ccccp+5%float
  ∧ ¬ mirrorsExactly (firstEntry true) offGridMirrored.
Proof.
  assert (RAPIER.x <$> (RAPIER.nextKinematicTranslation
                          <$> RAPIER.rigidBodies
                                (world (final (syncBody (firstEntry true) offGridMirrored)))
                              !! 0)
          = Some 0x1.00ccccp+5%float) as Hx by (vm_compute; reflexivity).
  split_and!; [reflexivity | reflexivity | exact Hx |].
  unfold mirrorsExactly. cbv zeta. intros (st' & b & c & Hret & Hb & Htr & _).
  rewrite Hret in Hx. cbn [final] in Hx.
  change (TRidgiBodyObject.rigidBody (firstEntry true)) with 0 in Hb.
  rewrite Hb in Hx. cbn in Hx. rewrite Htr in Hx. cbn in Hx.
  apply (f_equal (λ v, match v with
                       | Some v => PrimFloat.eqb v 0x1.00ccccp+5
                       | None => false
                       end)) in Hx.
  vm_compute in Hx. discriminate Hx.
Qed.

(** C3 as stated fails on the same sprite: attached at x = 0.1, its body
    is at x = 0.10000000149011612. *)
Lemma offgrid_sprite_body_elsewhere :
  RAPIER.x <$> (RAPIER.translation
                  <$> RAPIER.rigidBodies
                        (world (final (addRigidBody 0 None (createRapierPhysics (λ _, offGrid)))))
                      !! 0)
  = Some 0x1.99999ap-4%float
  ∧ ¬ startsAtDisplayPose 0 None (createRapierPhysics (λ _, offGrid)).
Proof.
  assert (RAPIER.x <$> (RAPIER.translation
                          <$> RAPIER.rigidBodies
                                (world (final (addRigidBody 0 None
                                                 (createRapierPhysics (λ _, offGrid)))))
                              !! 0)
          = Some 0x1.99999ap-4%float) as Hx by (vm_compute; reflexivity).
  split; [exact Hx|].
  unfold startsAtDisplayPose. cbv zeta. intros (b & Hb & Htr & _).
  change (RAPIER.nextBody (world (createRapierPhysics (λ _, offGrid)))) with 0 in Hb.
  rewrite Hb in Hx. cbn in Hx. rewrite Htr in Hx. cbn in Hx.
  apply (f_equal (λ v, match v with
                       | Some v => PrimFloat.eqb v 0x1.99999ap-4
                       | None => false
                       end)) in Hx.
  vm_compute in Hx. discriminate Hx.
Qed.

(** The same through a whole frame: [update] returns, and the body has
    its target. *)
Lemma mirrored_sprite_frame :
  ∃ st', update falling (attached KinematicPositionBased true) = Returned tt st'
         ∧ RAPIER.nextKinematicTranslation <$> RAPIER.rigidBodies (world st') !! 0
           = Some {| RAPIER.x := 332; RAPIER.y := 200 |}
         ∧ scene st' 0 = sprite.
Proof. eexists. split; [vm_compute; reflexivity|]. by vm_compute. Qed.

(** The mirrored dynamic sprite: the diagnostic and nothing else. *)
Lemma mirrored_dynamic_sprite :
  syncBody (firstEntry true) (attached Dynamic true)
  = Returned tt (set_trace (λ t, t ++ [console_error mirrorMisuse]) (attached Dynamic true)).
Proof.
  apply (syncBody_mirror_on_other_kinds (firstEntry true) (attached Dynamic true)
           (bodyAt Dynamic 0 sprite) eq_refl eq_refl).
  by left.
Defined.

(** C5 as stated fails on a fixed body: with the flag set and a body
    that is not kinematic position-based, the callback returns the state
    unchanged, and no diagnostic is written. *)
Lemma mirrored_fixed_sprite_unreported :
  RAPIER.bodyType <$> RAPIER.rigidBodies (world (attached Fixed true)) !! 0 = Some Fixed
  ∧ TRidgiBodyObject.phaserTransformations (firstEntry true) = true
  ∧ bodies (attached Fixed true) = [firstEntry true]
  ∧ syncBody (firstEntry true) (attached Fixed true) = Returned tt (attached Fixed true)
  ∧ ¬ reportsMisuse (firstEntry true) (attached Fixed true).
Proof.
  assert (syncBody (firstEntry true) (attached Fixed true)
          = Returned tt (attached Fixed true)) as Hsync by reflexivity.
  split_and!; try reflexivity.
  intros (st' & Hret & Htrace). rewrite Hsync in Hret. injection Hret as <-.
  vm_compute in Htrace. discriminate Htrace.
Qed.

(** The sprite attached once and destroyed twice: the first call empties
    the array, the second finds nothing and changes nothing. *)
Lemma destroy_twice_attached_once :
  ∃ st', destroy 0 (attached Fixed false) = Returned tt st'
         ∧ bodies st' = []
         ∧ trace st' = [world_removeRigidBody 0; gameObject_destroy 0; bodies_splice 0]
         ∧ destroy 0 st' = Returned tt st'.
Proof.
  destruct (destroy_removes_first_entry 0 (attached Fixed false) (NoDup_singleton 0))
    as (Hfound & _ & Hagain).
  destruct (Hfound 0 (firstEntry false) eq_refl)
    as (st' & Hret & _ & _ & Hbodies & _ & Htrace).
  exists st'. split_and!; [exact Hret | exact Hbodies | exact Htrace |].
  apply Hagain; [|exact Hret]. vm_compute. lia.
Defined.

(** C6 as stated fails on a display object attached twice: the second
    [destroy] finds the other entry and removes it, so the array is
    shorter again. *)
Lemma destroy_twice_attached_twice :
  let st1 := final (destroy 0 twice) in
  let st2 := final (destroy 0 st1) in
  TRidgiBodyObject.gameObject <$> bodies twice = [0; 0]
  ∧ length (bodies st1) = 1
  ∧ length (bodies st2) = 0
  ∧ length (bodies st2) ≠ length (bodies st1).
Proof. cbv zeta. split_and!; [reflexivity..|]. vm_compute. lia. Qed.

(** C7 as stated fails on two segments: the second segment is drawn in
    the colour of the floats at 8 to 11, blue at half alpha, not in that
    of the floats at 4 to 7, red. *)
Lemma second_segment_color_not_in_lockstep :
  debugLines twoSegments !! 2
  = Some (Phaser.lineStyle 2 (Phaser.GetColor 0 0 255) (Some 0.5%float))
  ∧ lockstepStyle (RAPIER.colors twoSegments) 1
    = Phaser.lineStyle 2 (Phaser.GetColor 255 0 0) (Some 1%float)
  ∧ debugLines twoSegments !! 2 ≠ Some (lockstepStyle (RAPIER.colors twoSegments) 1).
Proof.
  split_and!; [reflexivity..|].
  intros Heq.
  apply (f_equal (λ call, match call with
                          | Some (Phaser.lineStyle _ color _) =>
                              PrimFloat.eqb (Phaser.red color) 0
                          | _ => false
                          end)) in Heq.
  vm_compute in Heq. discriminate Heq.
Qed.

(** The sprite attached to a fixed body only: three frames of falling
    leave it where it was. *)
Lemma fixed_sprite_stays :
  scene (final (frames falling 3 (attached Fixed false))) 0 = sprite.
Proof.
  refine (proj2 (fixed_bodies_leave_display_object falling 0 (attached Fixed false)
                   keepsKinds_falling _) 3).
  intros a Ha _.
  change (bodies (attached Fixed false)) with [firstEntry false] in Ha.
  apply list_elem_of_singleton in Ha. subst a. reflexivity.
Defined.

(** C9 as stated fails on a display object attached twice: the entry of
    the fixed body is passed over, but the entry of the dynamic body
    writes the same sprite, which after one frame of falling is one unit
    lower. *)
Lemma fixed_sprite_moved_by_other_entry :
  let st' := final (update falling twice) in
  bodies twice
  = [ {| TRidgiBodyObject.self := 1; TRidgiBodyObject.rigidBody := 1;
         TRidgiBodyObject.collider := 1; TRidgiBodyObject.gameObject := 0;
         TRidgiBodyObject.phaserTransformations := false |};
      firstEntry false ]
  ∧ kindOf twice 0 = Some Fixed
  ∧ kindOf twice 1 = Some Dynamic
  ∧ Phaser.y (scene twice 0) = 200%float
  ∧ Phaser.y (scene st' 0) = 201%float
  ∧ scene st' 0 ≠ scene twice 0.
Proof.
  cbv zeta. split_and!; [reflexivity..|].
  intros Heq.
  apply (f_equal (λ g, PrimFloat.eqb (Phaser.y g) 200)) in Heq.
  vm_compute in Heq. discriminate Heq.
Qed.

(** Sprite 0 attached to a body that stays where it is and then to one
    that falls: both calls return, the entry of the falling body is the
    first of the array, and after a frame the sprite is at 200, where the
    body attached first has put it last. *)
Lemma twice_attached_first_has_last_word :
  let calls := [(0, Some (options KinematicVelocityBased Cuboid false));
                (0, Some (options Dynamic Cuboid false))] in
  ∃ rs st' st'',
    attachAll calls start = Returned rs st'
    ∧ TPhysicsObject.rigidBody <$> rs = [0; 1]
    ∧ TRidgiBodyObject.rigidBody <$> bodies st' = [1; 0]
    ∧ update falling st' = Returned tt st''
    ∧ RAPIER.y <$> (RAPIER.translation <$> RAPIER.rigidBodies (world st'') !! 0)
      = Some 200%float
    ∧ RAPIER.y <$> (RAPIER.translation <$> RAPIER.rigidBodies (world st'') !! 1)
      = Some 201%float
    ∧ Phaser.y (scene st'' 0) = 200%float.
Proof.
  cbv zeta.
  destruct (attach_prepends_sync_front_to_back falling start
              [(0, Some (options KinematicVelocityBased Cuboid false));
               (0, Some (options Dynamic Cuboid false))] eq_refl)
    as (rs & st' & l & Hret & Hl & _ & _ & _ & Hframe).
  destruct (Hframe keepsObjects_falling (sound_createRapierPhysics _))
    as (st'' & Hup & Hscene).
  exists rs, st', st''.
  pose proof Hret as Hconcrete. vm_compute in Hconcrete.
  injection Hconcrete as Hrs Hst'.
  split_and!; [exact Hret | by rewrite <- Hrs | by rewrite <- Hst' | exact Hup | | |].
  - pose proof Hup as Hup'. rewrite <- Hst' in Hup'. vm_compute in Hup'.
    injection Hup' as Hst''. by rewrite <- Hst''.
  - pose proof Hup as Hup'. rewrite <- Hst' in Hup'. vm_compute in Hup'.
    injection Hup' as Hst''. by rewrite <- Hst''.
  - rewrite Hscene, <- Hl, <- Hst'. vm_compute. reflexivity.
Defined.

(** Three sprites attached in the order 1, 2, 3 are held, and taken by
    the frame loop, in the order 3, 2, 1. *)
Lemma three_sprites_in_reverse :
  TRidgiBodyObject.gameObject
    <$> bodies (final (attachAll [(1, None); (2, None); (3, None)] start))
  = [3; 2; 1].
Proof. reflexivity. Qed.

(** The order shows when two entries write one sprite. Attached first
    to a body that stays at 200 and then to one that falls to 201, the
    sprite ends the frame at 200: the entry attached last is taken first,
    and the one attached first has the last word. *)
Lemma first_attached_writes_last :
  let st :=
    final ((addRigidBody 0 (Some (options KinematicVelocityBased Cuboid false));;
            addRigidBody 0 (Some (options Dynamic Cuboid false));;
            update falling) start) in
  RAPIER.y <$> (RAPIER.translation <$> RAPIER.rigidBodies (world st) !! 0) = Some 200%float
  ∧ RAPIER.y <$> (RAPIER.translation <$> RAPIER.rigidBodies (world st) !! 1) = Some 201%float
  ∧ Phaser.y (scene st 0) = 200%float.
Proof. cbv zeta. by vm_compute. Qed.

(** Two queues made, the first call's [free] used: queue 1 is released,
    queue 0 is not, and the variable is cleared. *)
Lemma first_free_releases_second_queue :
  let made :=
    (first ← createEventQueue;
     second ← createEventQueue;
     TEventQueue.free first;;
     mret (TEventQueue.eventQueue first, TEventQueue.eventQueue second)) start in
  ∃ st, made = Returned (0, 1) st
        ∧ eventQueue st = None
        ∧ RAPIER.live (queues st) = {[0]}.
Proof.
  cbv zeta. eexists. split; [reflexivity|]. split; [reflexivity|].
  cbn. apply set_eq. intros q.
  rewrite elem_of_difference, !elem_of_union, !elem_of_singleton.
  split; [intros [[?|[?|[]%elem_of_empty]] ?]; congruence | intros ->; split; [auto|lia]].
Qed.

(** Asking for a polyline: the throw, and not a word on the console. *)
Lemma Polyline_attach_throws_silently :
  ∃ st', addRigidBody 0 (Some (options Dynamic Polyline false)) start = Thrown TypeError st'
         ∧ trace st' = [].
Proof.
  destruct (addRigidBody_silent_kinds 0 (options Dynamic Polyline false) Polyline start
              eq_refl (or_introl eq_refl))
    as (st' & Hthrow & Htrace & _).
  exists st'. split; [exact Hthrow | exact Htrace].
Defined.

(** A ball of radius 1.5 of the caller's own stays a ball of radius
    1.5. *)
Lemma own_collider_is_kept :
  ∃ r st', addRigidBody 0 (Some ownCollider) start = Returned r st'
           ∧ RAPIER.shape <$> RAPIER.colliders (world st') !! TPhysicsObject.collider r
             = Some (RAPIER.ball 1.5).
Proof.
  destruct (addRigidBody_descriptor 0 (Some ownCollider) (RAPIER.ball 1.5) start eq_refl)
    as (r & st' & Hret & Hcol & _).
  exists r, st'. split; [exact Hret|]. by rewrite Hcol.
Defined.

(** No options at all: a dynamic body, and an entry with the flag
    unset. *)
Lemma no_options_attach :
  ∃ a, bodies (final (addRigidBody 0 None start)) = [a]
       ∧ TRidgiBodyObject.phaserTransformations a = false
       ∧ kindOf (final (addRigidBody 0 None start)) (TRidgiBodyObject.rigidBody a)
         = Some Dynamic.
Proof.
  destruct (addRigidBody 0 None start) as [r st'|e st'] eqn:Hret;
    [|by vm_compute in Hret].
  destruct (addRigidBody_defaults 0 None start st' r Hret)
    as (a & b & Hbodies & Hrb & _ & Hflag & _ & Hb & Hkind & _).
  exists a. cbn [final]. split_and!; [exact Hbodies | exact Hflag |].
  unfold kindOf. by rewrite Hrb, Hb; cbn; rewrite Hkind.
Defined.

(** The dynamic sprite whose body has made half a turn: the callback
    puts it at (300, 200), and its rotation is the body's
    -3.1415927410125732 wrapped, which is 3.141592566167013. *)
Lemma half_turned_sprite_follows :
  ∃ st', syncBody (firstEntry false) halfTurned = Returned tt st'
         ∧ RAPIER.rotation <$> RAPIER.rigidBodies (world halfTurned) !! 0
           = Some (-0x1.921fb6p+1)%float
         ∧ Phaser.x (scene st' 0) = 300%float
         ∧ Phaser.y (scene st' 0) = 200%float
         ∧ Phaser.rotation (scene st' 0) = 0x1.921fb48885a3p+1%float
         ∧ Phaser.displayWidth (scene st' 0) = 64%float.
Proof.
  destruct (syncBody_engine_drives_display (firstEntry false) halfTurned
              {| RAPIER.bodyType := Dynamic;
                 RAPIER.translation := {| RAPIER.x := 300; RAPIER.y := 200 |};
                 RAPIER.rotation := (-0x1.921fb6p+1)%float;
                 RAPIER.nextKinematicTranslation := {| RAPIER.x := 300; RAPIER.y := 200 |};
                 RAPIER.nextKinematicRotation := 0.5;
                 RAPIER.userData := Some 0 |}
              eq_refl eq_refl eq_refl)
    as (st' & Hret & Hx & Hy & Hrot & Hw & _).
  exists st'.
  split_and!; [exact Hret | reflexivity | exact Hx | exact Hy | | exact Hw].
  etrans; [exact Hrot|]. vm_compute. reflexivity.
Defined.

(** The two sprites, a frame, a throwing attach, a destroy and another
    frame: the state is sound. *)
Lemma busy_scene_is_sound :
  sound (run falling
           [call_addRigidBody 1 (Some (options Dynamic Ball false));
            call_addRigidBody 2 (Some (options Fixed Cuboid false));
            call_update;
            call_addRigidBody 3 (Some (options Dynamic TriMesh true));
            call_destroy 1;
            call_update]
           start).
Proof.
  exact (reachable_states_are_sound falling (λ _, sprite) _ keepsObjects_falling).
Defined.

(** And the next frame returns. *)
Lemma busy_scene_next_frame :
  ∃ st', update falling
           (run falling
              [call_addRigidBody 1 (Some (options Dynamic Ball false));
               call_addRigidBody 3 (Some (options Dynamic TriMesh true));
               call_destroy 1;
               call_createEventQueue;
               call_update]
              start) = Returned tt st'.
Proof.
  exact (update_never_throws falling (λ _, sprite) _ keepsObjects_falling).
Defined.

(** Sprite 1 of the two sprites after a frame of falling: one unit
    lower, turned as it was, with the size it had. *)
Lemma sprite1_falls_with_its_body :
  ∃ st', update falling twoSprites = Returned tt st'
         ∧ Phaser.x (scene st' 1) = 300%float
         ∧ Phaser.y (scene st' 1) = 201%float
         ∧ Phaser.rotation (scene st' 1) = 0.5%float
         ∧ Phaser.displayWidth (scene st' 1) = 64%float.
Proof.
  destruct (update_engine_drives_display falling twoSprites entryOfSprite1
              (fall (bodyAt Dynamic 1 sprite)) keepsObjects_falling)
    as (st' & Hret & _ & Hx & Hy & Hrot & Hw & _).
  - apply sound_run; [apply keepsObjects_falling|apply sound_createRapierPhysics].
  - apply list_elem_of_In. vm_compute. auto.
  - vm_compute. reflexivity.
  - reflexivity.
  - reflexivity.
  - reflexivity.
  - exists st'. split_and!; [exact Hret | exact Hx | exact Hy | | exact Hw].
    etrans; [exact Hrot|]. vm_compute. reflexivity.
Defined.

(** Destroying sprite 2 of the two sprites leaves the entry of sprite 1
    with its body. *)
Lemma destroy_sprite2_keeps_sprite1 :
  bodies (final (destroy 2 twoSprites)) = [entryOfSprite1]
  ∧ kindOf (final (destroy 2 twoSprites)) 0 = Some Dynamic.
Proof.
  destruct (destroy_leaves_other_entries 2 twoSprites entryOfSprite1)
    as (_ & Hrb & _).
  - apply sound_run; [apply keepsObjects_falling|apply sound_createRapierPhysics].
  - apply list_elem_of_In. vm_compute. auto.
  - cbn. lia.
  - split; [reflexivity|].
    exact (eq_trans (f_equal (fmap RAPIER.bodyType) Hrb) eq_refl).
Defined.

(** Attach and destroy on the fresh scene: the world is empty again. *)
Lemma attach_destroy_on_start :
  ∃ st2, (addRigidBody 0 None;; destroy 0) start = Returned tt st2
         ∧ bodies st2 = []
         ∧ RAPIER.rigidBodies (world st2) = ∅
         ∧ RAPIER.colliders (world st2) = ∅.
Proof.
  unfold mbind, Js_bind.
  destruct (addRigidBody 0 None start) as [r st1|e st1] eqn:Hret;
    [|by vm_compute in Hret].
  destruct (destroy_undoes_addRigidBody 0 None start st1 r
              (sound_createRapierPhysics _) Hret)
    as (st2 & Hdestroy & Hbodies & Hrb & Hcol & _).
  exists st2. split_and!; [exact Hdestroy | exact Hbodies | exact Hrb | exact Hcol].
Defined.

(** With debug drawing on, a frame on the two sprites draws the two
    segments of the simulation: four calls. *)
Lemma debug_frame_draws_two_segments :
  ∃ st', (debugger None;; update falling) twoSprites = Returned tt st'
         ∧ length (debugGraphics st') = 4.
Proof.
  unfold mbind, Js_bind.
  change (debugger None twoSprites)
    with (Returned tt (set_debugEnabled true twoSprites)).
  cbv beta iota.
  destruct (update falling (set_debugEnabled true twoSprites)) as [[] st'|e st'] eqn:Hret;
    [|by vm_compute in Hret].
  exists st'. split; [reflexivity|].
  by rewrite (update_redraws_surface falling _ st' Hret).
Defined.

(** A frame on the flagged sprites: the contact of the tick, then the
    diagnostic for the dynamic body, and none for the fixed one. *)
Lemma flagged_frame_console :
  ∃ st', update bumping flagged = Returned tt st'
         ∧ trace st' = [console_log 7; console_error mirrorMisuse].
Proof.
  assert (keepsObjects bumping) as Hsim.
  { intros w. split_and!; try done.
    intros h. cbn. rewrite lookup_fmap. by rewrite fmap_is_Some. }
  destruct (update_console bumping flagged Hsim) as (st' & Hret & Htrace).
  - apply sound_run; [exact Hsim|apply sound_createRapierPhysics].
  - exists st'. split; [exact Hret|]. rewrite Htrace. vm_compute. reflexivity.
Defined.

(** Sprite 1 falls with its ball, which comes to rest upright, and the
    box mirrors it. The mirroring entry is the later in the array, so the
    box, whose target was at (300, 200) and turned by 0.5, is sent to
    where the ball has just put the sprite: to (332, 201), upright, as is
    its collider. *)
Lemma box_follows_fallen_sprite :
  ∃ st' b c,
    update righting followed = Returned tt st'
    ∧ RAPIER.nextKinematicRotation <$> RAPIER.rigidBodies (world followed) !! 0
      = Some 0.5%float
    ∧ RAPIER.rigidBodies (world st') !! 0 = Some b
    ∧ RAPIER.nextKinematicTranslation b = {| RAPIER.x := 332; RAPIER.y := 201 |}
    ∧ RAPIER.nextKinematicRotation b = 0%float
    ∧ RAPIER.colliders (world st') !! 0 = Some c
    ∧ RAPIER.collider_rotation c = 0%float.
Proof.
  destruct (update_mirrors_display righting followed [driverOfSprite1] [] mirrorOfSprite1
              (bodyAt KinematicPositionBased 1 sprite) keepsObjects_righting)
    as (st' & b & c & Hret & Hb & Htr & Hrot & _ & Hc & Hcrot & _).
  - apply sound_run; [apply keepsObjects_falling|apply sound_createRapierPhysics].
  - reflexivity.
  - reflexivity.
  - reflexivity.
  - reflexivity.
  - exists st', b, c.
    split_and!; [exact Hret | reflexivity | exact Hb | | | exact Hc |].
    + rewrite Htr. vm_compute. reflexivity.
    + rewrite Hrot. vm_compute. reflexivity.
    + rewrite Hcrot. vm_compute. reflexivity.
Defined.

(** Sprite 0 asked for with a triangle mesh: the call throws, and after
    a [destroy] of the sprite and a frame the body is still in the
    world. *)
Lemma TriMesh_body_outlives_destroy :
  is_Some (RAPIER.rigidBodies
             (world (run falling [call_destroy 0; call_update]
                       (final (addRigidBody 0 (Some (options Dynamic TriMesh false)) start))))
           !! 0).
Proof.
  destruct (addRigidBody 0 (Some (options Dynamic TriMesh false)) start)
    as [r st'|e st'] eqn:Hthrow; [by vm_compute in Hthrow|].
  destruct (failed_attach_leaves_stray_body falling 0 _ start st' e
              [call_destroy 0; call_update] keepsObjects_falling
              (sound_createRapierPhysics _) Hthrow)
    as (_ & Hb & _).
  exact Hb.
Defined.
